(** * Multi-task training orchestrator ([pl_training.py]): model and properties

    A shallow embedding of the [PhantasmLight] Lightning module: the
    control-token vocabulary extension performed in [__init__], the encoder
    adapter [forward], the optimizer parameter groups built by
    [configure_optimizers], the loss aggregation of [calc_loss], the dataset
    wiring of [load_data] and the export hook [on_save_checkpoint].

    Conventions.
    - Floating-point scalars are read in exact arithmetic: a value is either a
      rational or the absorbing "not finite" value that [torch.mean] yields on
      an empty tensor (0/0) and that every IEEE special propagates to.
    - Python dictionaries keep insertion order; they are association lists
      with the assignment [d[k] = v] written out.  [self.heads] is only ever
      looked up by key, so it is a finite map.
    - The order in which a Python [set] is iterated depends on the
      interpreter's string hashing, and the names [torch.nn.ModuleDict]
      refuses on its class; both are given from outside ([list_set],
      [has_attribute]).
    - Exceptions are values of [exn]; calls that can raise return [result].
    - The encoder, the tokenizer, the task registry and the per-task loss
      functions are external collaborators; they are parameters of the model
      (record [Externals], fields of [TaskFamily.t]). *)

From Stdlib Require Import QArith Qround ZArith Lia Lqa.
From stdpp Require Import base list strings pretty gmap.

Set Default Proof Using "Type".
Set Warnings "-register-all".

(** ** Scalars in exact arithmetic *)

Inductive num : Type :=
  | Fin (q : Q)
  | NonFin.

Definition nadd (a b : num) : num :=
  match a, b with
  | Fin p, Fin q => Fin (p + q)%Q
  | _, _ => NonFin
  end.

(** Division of a sum by an element count; [0/0] is not finite. *)
Definition ndiv (a : num) (n : nat) : num :=
  match a, n with
  | Fin p, S _ => Fin (p / inject_Z (Z.of_nat n))%Q
  | _, _ => NonFin
  end.

Definition nsum (l : list num) : num := foldr nadd (Fin 0%Q) l.

(** [torch.mean] of the elements [l] of a tensor. *)
Definition mean_list (l : list num) : num := ndiv (nsum l) (length l).

Definition is_fin (a : num) : bool :=
  match a with Fin _ => true | NonFin => false end.

(** Equality of scalars as numbers ([1/2] and [2/4] are the same loss). *)
Definition num_eq (a b : num) : Prop :=
  match a, b with
  | Fin p, Fin q => (p == q)%Q
  | NonFin, NonFin => True
  | _, _ => False
  end.

Infix "=n=" := num_eq (at level 70, no associativity).

(** ** Exceptions and results *)

Inductive exn : Type :=
  | KeyError (key : string)
  | IndexError (msg : string)
  | RuntimeError (msg : string)
  | TypeError (msg : string).

Inductive result (A : Type) : Type :=
  | Ok (a : A)
  | Raise (e : exn).
Arguments Ok {A} a.
Arguments Raise {A} e.

Definition rbind {A B} (r : result A) (f : A → result B) : result B :=
  match r with
  | Ok a => f a
  | Raise e => Raise e
  end.

(** ** Tensors of rank 0, 1 and 2

    Loss tensors are per-example vectors [[batch]] or per-label matrices
    [[batch, num_labels]]; a reduced loss is a rank-0 scalar.  A matrix
    carries its column count so that [[0, k]] has a shape. *)

Inductive tensor : Type :=
  | T0 (x : num)
  | T1 (xs : list num)
  | T2 (cols : nat) (rows : list (list num)).

Definition wf_tensor (t : tensor) : Prop :=
  match t with
  | T2 c rows => Forall (λ r, length r = c) rows
  | _ => True
  end.

(** All elements, in row-major order. *)
Definition elems (t : tensor) : list num :=
  match t with
  | T0 x => [x]
  | T1 xs => xs
  | T2 _ rows => concat rows
  end.

(** [torch.mean(t)]: the mean over every element, a scalar. *)
Definition tmean (t : tensor) : num := mean_list (elems t).

(** [torch.mean(t, dim=1)]: needs a second dimension. *)
Definition tmean_dim1 (t : tensor) : result tensor :=
  match t with
  | T2 _ rows => Ok (T1 (map mean_list rows))
  | _ => Raise (IndexError "Dimension out of range")
  end.

Definition is_T0 (t : tensor) : bool :=
  match t with T0 _ => true | _ => false end.

Definition is_T1 (t : tensor) : bool :=
  match t with T1 _ => true | _ => false end.

Definition is_T2 (c : nat) (t : tensor) : bool :=
  match t with T2 c' _ => Nat.eqb c' c | _ => false end.

(** A rank-1 tensor with no element; [torch.cat] skips these whatever the
    shape of the others. *)
Definition skipped_by_cat (t : tensor) : bool :=
  match t with T1 [] => true | _ => false end.

Definition rows_of (t : tensor) : list (list num) :=
  match t with T2 _ rows => rows | _ => [] end.

(** [torch.cat(ts)] along dimension 0: refuses an empty list and rank-0
    tensors; the others must agree on rank and on the column count. *)
Definition tcat (ts : list tensor) : result tensor :=
  match ts with
  | [] => Raise (RuntimeError "torch.cat(): expected a non-empty list of Tensors")
  | _ =>
    if existsb is_T0 ts
    then Raise (RuntimeError "zero-dimensional tensor cannot be concatenated")
    else
      let ts' := List.filter (λ t, negb (skipped_by_cat t)) ts in
      match ts' with
      | [] => Ok (T1 [])
      | T2 c _ :: _ =>
        if forallb (is_T2 c) ts'
        then Ok (T2 c (concat (map rows_of ts')))
        else Raise (RuntimeError "Sizes of tensors must match except in dimension 0")
      | _ =>
        if forallb is_T1 ts'
        then Ok (T1 (concat (map elems ts')))
        else Raise (RuntimeError "Tensors must have same number of dimensions")
      end
  end.

(** ** Python values and dictionaries *)

(** What a batch payload is made of: tensors (token ids, labels) nested in
    tuples.  [calc_loss] takes payloads apart by position only. *)
Inductive pyval : Type :=
  | PyTensor (t : tensor)
  | PyTuple (items : list pyval).

(** [v[i]] for a literal index [i]: a tuple's item, a matrix's row, a
    vector's element. *)
Definition getitem (v : pyval) (i : nat) : result pyval :=
  match v with
  | PyTuple items =>
    match items !! i with
    | Some x => Ok x
    | None => Raise (IndexError "tuple index out of range")
    end
  | PyTensor (T2 _ rows) =>
    match rows !! i with
    | Some r => Ok (PyTensor (T1 r))
    | None => Raise (IndexError "index out of bounds for dimension 0")
    end
  | PyTensor (T1 xs) =>
    match xs !! i with
    | Some x => Ok (PyTensor (T0 x))
    | None => Raise (IndexError "index out of bounds for dimension 0")
    end
  | PyTensor (T0 _) => Raise (IndexError "invalid index of a 0-dim tensor")
  end.

(** A [dict]: keys are unique and iterate in insertion order. *)
Definition odict (V : Type) : Type := list (string * V).

Fixpoint dict_get {V} (d : odict V) (k : string) : option V :=
  match d with
  | [] => None
  | (k', v) :: d' => if String.eqb k' k then Some v else dict_get d' k
  end.

(** [d[k]]: a missing key raises. *)
Definition dict_item {V} (d : odict V) (k : string) : result V :=
  match dict_get d k with
  | Some v => Ok v
  | None => Raise (KeyError k)
  end.

(** [d[k] = v]: an existing key keeps its place. *)
Fixpoint dict_set {V} (d : odict V) (k : string) (v : V) : odict V :=
  match d with
  | [] => [(k, v)]
  | (k', v') :: d' =>
    if String.eqb k' k then (k, v) :: d' else (k', v') :: dict_set d' k v
  end.

Definition keys {V} (d : odict V) : list string := map fst d.
Definition values {V} (d : odict V) : list V := map snd d.

(** Truth value of an [Optional[str]]: [None] and the empty string are false. *)
Definition truthy (s : option string) : bool :=
  match s with
  | Some (String _ _) => true
  | _ => false
  end.

(** ** The tokenizer and the encoder, as their documented interface

    [transformers]' tokenizer: a vocabulary (the id of a token is its
    position), the id of the [cls] token, and the registered additional
    special tokens.  [len(tokenizer)] is the size of the full vocabulary. *)

Record Tokenizer : Type := {
  vocab : list string;
  cls_token_id : nat;
  additional_special_tokens : list string
}.

Definition tokenizer_len (tok : Tokenizer) : nat := length (vocab tok).

(** The requested tokens that get a new id: those not in the vocabulary,
    each once, in the order given. *)
Definition new_tokens (tok : Tokenizer) (toks : list string) : list string :=
  List.filter (λ t, bool_decide (t ∉ vocab tok)) (remove_dups toks).

(** [tokenizer.add_special_tokens({'additional_special_tokens': toks})]:
    registers [toks]; those missing from the vocabulary are appended to it
    (ids from the current length on); returns the number appended. *)
Definition add_special_tokens (tok : Tokenizer) (toks : list string)
  : Tokenizer * nat :=
  let fresh := new_tokens tok toks in
  ({| vocab := vocab tok ++ fresh;
      cls_token_id := cls_token_id tok;
      additional_special_tokens := toks |},
   length fresh).

(** The encoder: its word-embedding matrix (one row per token id) and the
    checkpoint it was loaded from, which stands for every other weight. *)
Record Encoder : Type := {
  checkpoint : string;
  word_embeddings : list (list num)
}.

(** [encoder.resize_token_embeddings(n)]: rows are dropped from the end or
    newly initialised rows ([init_row i] for row [i]) are added at the end. *)
Definition resize_token_embeddings (init_row : nat → list num)
    (enc : Encoder) (n : nat) : Encoder :=
  let w := word_embeddings enc in
  {| checkpoint := checkpoint enc;
     word_embeddings := take n w ++ map init_row (seq (length w) (n - length w)) |}.

(** [w[-k:, :] = w[c, :]] on a matrix: the row [c] is read, then written
    over the last [k] rows; the slice [-k:] is every row when [k] exceeds
    the row count, and also when [k] is zero ([-0:] is [0:]). *)
Definition assign_last_rows (w : list (list num)) (k c : nat)
  : result (list (list num)) :=
  match w !! c with
  | None => Raise (IndexError "index out of bounds for dimension 0")
  | Some r =>
    let start := match k with
                 | O => 0%nat
                 | S _ => (length w - k)%nat
                 end in
    Ok (take start w ++ replicate (length w - start) r)
  end.

(** Last-layer hidden states: [[batch, seq_len, hidden]]. *)
Record hidden_states : Type := {
  seq_len : nat;
  hidden_size : nat;
  last_hidden_state : list (list (list num))
}.

Definition wf_hidden (h : hidden_states) : Prop :=
  Forall (λ ex, length ex = seq_len h) (last_hidden_state h).

(** A Python index into a dimension of size [n]: negative indices count
    from the end. *)
Definition norm_index (i : Z) (n : nat) : option nat :=
  if bool_decide (0 ≤ i < Z.of_nat n)%Z then Some (Z.to_nat i)
  else if bool_decide (- Z.of_nat n ≤ i < 0)%Z then Some (Z.to_nat (i + Z.of_nat n))
  else None.

(** [h[:, token_idx, :]]. *)
Definition select_token (h : hidden_states) (token_idx : Z) : result tensor :=
  match norm_index token_idx (seq_len h) with
  | Some i =>
    Ok (T2 (hidden_size h) (map (λ ex, nth i ex []) (last_hidden_state h)))
  | None => Raise (IndexError "index out of bounds for dimension 1")
  end.

(** ** Effects: an event log and exceptions *)

(** What a run does that is visible from outside, in order.  [EvTask] and
    [EvForward] mark the start of a loop iteration of [calc_loss] and a call
    of [forward]; the others are calls into the collaborators: [print],
    [tokenizer.add_special_tokens], [encoder.resize_token_embeddings], the
    encoder itself, [encoder.save_pretrained], [tokenizer.save_pretrained]
    and [tokenizer.save_vocabulary]. *)
Inductive event : Type :=
  | EvPrint (s : string)
  | EvAddSpecialTokens (toks : list string)
  | EvResize (n : nat)
  | EvTask (name : string)
  | EvForward (x : pyval) (token_idx : Z)
  | EvEncoder (x : pyval)
  | EvSaveModel (path : string) (enc : Encoder)
  | EvSaveTokenizer (path : string) (tok : Tokenizer)
  | EvSaveVocabulary (path : string) (tok : Tokenizer).

(** A computation: the events it performed, then its value or the exception
    that ended it. *)
Definition M (A : Type) : Type := list event * result A.

#[global] Instance M_ret : MRet M := λ A a, ([], Ok a).

#[global] Instance M_bind : MBind M := λ A B f m,
  match m with
  | (l, Ok a) => let '(l', r) := f a in (l ++ l', r)
  | (l, Raise e) => (l, Raise e)
  end.

Definition emit (e : event) : M unit := ([e], Ok tt).
Definition lift {A} (r : result A) : M A := ([], r).

Definition log {A} (m : M A) : list event := fst m.
Definition val {A} (m : M A) : result A := snd m.

(** ** Task descriptors (class [TaskFamily] of [tasks.py], read-only here) *)

(** A classification head: a module with a [linear] layer.  What else the
    module computes is the registry's business ([head_call] below). *)
Record Head : Type := {
  linear_weight : list (list num);
  linear_bias : option (list num)
}.

Module TaskFamily.
Record t : Type := {
  name : string;
  type : string;
  head : option Head;
  ctrl_token : option string;
  (** [task.loss]: called with three embeddings or with logits and labels. *)
  loss : list pyval → result tensor;
  multi_label : bool
}.
End TaskFamily.

(** ** The module's state *)

Record PhantasmLight : Type := {
  task_dict : odict TaskFamily.t;
  heads : gmap string Head;
  encoder : Encoder;
  tokenizer : Tokenizer;
  use_ctrl_tokens : bool;
  batch_size : Z;
  lr : Q
}.

(** Identity of a parameter tensor of the module. *)
Definition param : Type := nat.

(** What the module gets from outside this file. *)
Record Externals : Type := {
  (** [tasks.load_tasks()] *)
  load_tasks : odict TaskFamily.t;
  (** [AutoModel.from_pretrained], [AutoTokenizer.from_pretrained] *)
  AutoModel_from_pretrained : string → Encoder;
  AutoTokenizer_from_pretrained : string → Tokenizer;
  (** calling the encoder on a batch of token ids *)
  encoder_call : Encoder → pyval → result hidden_states;
  (** calling a head on an encoding *)
  head_call : Head → tensor → result tensor;
  (** the initial value of embedding row [i] created by a resize *)
  init_row : nat → list num;
  (** a sample of [normal_(mean=0.0, std=0.02)] in the shape of a matrix *)
  normal_like : list (list num) → list (list num);
  (** [self.named_parameters()] *)
  named_parameters : PhantasmLight → list (string * param);
  (** [list(set(l))]: the distinct elements of [l] in the order in which
      the interpreter iterates the set, which depends on its string hashing *)
  list_set : list string → list string;
  (** [hasattr(m, name)] for a [torch.nn.ModuleDict] [m] that holds no
      module under [name]: whether the class has such an attribute *)
  has_attribute : string → bool
}.

(** The logger the trainer attaches to the module ([self.logger]). *)
Inductive version : Type :=
  | VInt (n : N)
  | VStr (s : string).

Record Logger : Type := {
  save_dir : string;
  logger_name : string;
  logger_version : version
}.

(** [f'{v}'] for a version: an integer prints in decimal. *)
Definition format_version (v : version) : string :=
  match v with
  | VInt n => pretty n
  | VStr s => s
  end.

(** The double-quote character, for messages that quote. *)
Definition dquote : string := String (Ascii.ascii_of_nat 34) EmptyString.

(** [nd in n] on strings: [nd] occurs in [n] as a substring. *)
Fixpoint str_in (nd n : string) : bool :=
  String.prefix nd n ||
  match n with
  | EmptyString => false
  | String _ n' => str_in nd n'
  end.

(** Optimizer and schedule objects. *)
Record param_group : Type := {
  params : list param;
  weight_decay : Q
}.

Record AdamW : Type := {
  param_groups : list param_group;
  adamw_lr : Q;
  eps : Q
}.

Record InverseSquareRootScheduleConfig : Type := {
  warmup_updates : Z;
  warmup_init_lr : Q;
  config_lr : Q
}.

Record lr_scheduler : Type := {
  scheduler_config : InverseSquareRootScheduleConfig;
  scheduler_optimizer : AdamW;
  interval : string;
  frequency : Z
}.

Record optimizers : Type := {
  optimizer : AdamW;
  scheduler : lr_scheduler
}.

(** The datasets [load_data] wires up, by constructor. *)
Inductive dataset_kind : Type :=
  | MultiLabelClassificationDataset
  | ClassificationDataset
  | IRDataset
  | TripletDataset.

Record dataset : Type := {
  ds_kind : dataset_kind;
  ds_task_name : string;
  ds_ctrl_token : option string;
  ds_sample_size : Z
}.

(** ** The methods of [PhantasmLight] *)

Section PhantasmLight.
Variable ext : Externals.

(** [init_weights(modules)]: every head gets a freshly sampled weight and a
    zero bias.  The heads are the registry's own objects, changed in place;
    only [self.heads] reads them afterwards. *)
Definition init_weights (modules : gmap string Head) : gmap string Head :=
  (λ module,
     {| linear_weight := normal_like ext (linear_weight module);
        linear_bias := map (λ _, Fin 0) <$> linear_bias module |})
  <$> modules.

(** [{t.name: t.head for t in task_dict.values() if t.head}], the
    dictionary handed to [torch.nn.ModuleDict]. *)
Definition heads_dict (td : odict TaskFamily.t) : odict Head :=
  foldl (λ (d : odict Head) t,
           match TaskFamily.head t with
           | Some h => dict_set d (TaskFamily.name t) h
           | None => d
           end) [] (values td).

(** [add_module(name, module)] of [torch.nn.Module], by which a
    [ModuleDict] stores an entry: the name must not be an attribute of the
    module already (unless it names a stored module), must not contain a
    dot and must not be empty. *)
Definition add_module (m : gmap string Head) (name : string) (module : Head)
  : result (gmap string Head) :=
  if (has_attribute ext name || bool_decide (is_Some (m !! name)))
     && negb (bool_decide (is_Some (m !! name)))
  then Raise (KeyError ("attribute '" +:+ name +:+ "' already exists"))
  else if str_in "." name
  then Raise (KeyError ("module name can't contain " +:+ dquote +:+ "." +:+
                        dquote +:+ ", got: " +:+ name))
  else if bool_decide (name = EmptyString)
  then Raise (KeyError ("module name can't be empty string " +:+ dquote +:+
                        dquote))
  else Ok (<[name := module]> m).

(** [torch.nn.ModuleDict(modules)]: the entries are stored one by one, in
    the order of the dictionary. *)
Definition ModuleDict (modules : odict Head) : result (gmap string Head) :=
  foldl (λ r kv, rbind r (λ m, add_module m kv.1 kv.2)) (Ok ∅) modules.

(** The table a registry's heads make: under a name, the head of the last
    task of that name that owns one. *)
Definition heads_of (td : odict TaskFamily.t) : gmap string Head :=
  foldl (λ (m : gmap string Head) t,
           match TaskFamily.head t with
           | Some h => <[TaskFamily.name t := h]> m
           | None => m
           end) ∅ (values td).

(** [[t.ctrl_token for t in task_dict.values() if t.ctrl_token]] *)
Definition ctrl_tokens (td : odict TaskFamily.t) : list string :=
  omap (λ t, if truthy (TaskFamily.ctrl_token t)
             then TaskFamily.ctrl_token t else None) (values td).

(** [set([t.ctrl_token for t in task_dict.values() if t.ctrl_token])] *)
Definition spl_ctrl_tokens (td : odict TaskFamily.t) : gset string :=
  list_to_set (ctrl_tokens td).

(** The control-token branch of [__init__] (lines 46-56), from the loaded
    encoder and tokenizer to the ones the module keeps. *)
Definition extend_vocabulary (use_ctrl_tokens : bool) (td : odict TaskFamily.t)
    (enc : Encoder) (tok : Tokenizer) : M (Encoder * Tokenizer) :=
  if use_ctrl_tokens then
    let spl := spl_ctrl_tokens td in
    if bool_decide (spl ≠ ∅) then
      emit (EvPrint "Using Control Tokens");;
      let toks := list_set ext (ctrl_tokens td) in
      emit (EvAddSpecialTokens toks);;
      let '(tok', num_added_toks) := add_special_tokens tok toks in
      if (0 <? num_added_toks)%nat then
        emit (EvResize (tokenizer_len tok'));;
        let enc' := resize_token_embeddings (init_row ext) enc (tokenizer_len tok') in
        w ← lift (assign_last_rows (word_embeddings enc') num_added_toks
                     (cls_token_id tok'));
        mret ({| checkpoint := checkpoint enc'; word_embeddings := w |}, tok')
      else mret (enc, tok')
    else mret (enc, tok)
  else mret (enc, tok).

(** [PhantasmLight.__init__] *)
Definition init (batch_size : Z) (use_ctrl_tokens : bool)
    (task_dict : option (odict TaskFamily.t)) : M PhantasmLight :=
  let td := match task_dict with
            | Some ((_ :: _) as d) => d
            | _ => load_tasks ext
            end in
  heads ← lift (ModuleDict (heads_dict td));
  let hs := init_weights heads in
  let enc := AutoModel_from_pretrained ext "allenai/specter" in
  let tok := AutoTokenizer_from_pretrained ext "allenai/specter" in
  '(enc', tok') ← extend_vocabulary use_ctrl_tokens td enc tok;
  mret {| task_dict := td; heads := hs; encoder := enc'; tokenizer := tok';
          use_ctrl_tokens := use_ctrl_tokens; batch_size := batch_size;
          lr := (1 # 1000000)%Q |}.

(** [PhantasmLight.forward] *)
Definition forward (self : PhantasmLight) (x : pyval) (token_idx : Z) : M tensor :=
  emit (EvForward x token_idx);;
  emit (EvEncoder x);;
  embedding ← lift (encoder_call ext (encoder self) x);
  lift (select_token embedding token_idx).

(** [PhantasmLight.configure_optimizers].  The method also keeps the
    optimizer in [self.opt], which nothing reads. *)
Definition no_decay : list string := ["bias"; "LayerNorm.weight"].

Definition configure_optimizers (self : PhantasmLight) : optimizers :=
  let optimizer_grouped_parameters :=
    [ {| params := (List.filter (λ np, negb (existsb (λ nd, str_in nd np.1) no_decay))
                      (named_parameters ext self)).*2;
         weight_decay := 0%Q |};
      {| params := (List.filter (λ np, existsb (λ nd, str_in nd np.1) no_decay)
                      (named_parameters ext self)).*2;
         weight_decay := 0%Q |} ] in
  let optimizer :=
    {| param_groups := optimizer_grouped_parameters;
       adamw_lr := lr self; eps := (1 # 100000000)%Q |} in
  let scheduler_config :=
    {| warmup_updates := 100; warmup_init_lr := lr self;
       config_lr := (5 # 100000)%Q |} in
  {| optimizer := optimizer;
     scheduler := {| scheduler_config := scheduler_config;
                     scheduler_optimizer := optimizer;
                     interval := "step"; frequency := 1 |} |}.

(** [self.heads[name]] *)
Definition heads_item (self : PhantasmLight) (name : string) : result Head :=
  match heads self !! name with
  | Some h => Ok h
  | None => Raise (KeyError name)
  end.

(** [batch[i][j]] *)
Definition getitem2 (batch : pyval) (i j : nat) : result pyval :=
  rbind (getitem batch i) (λ b, getitem b j).

(** The body of the loop of [calc_loss] (lines 98-110): the loss tensor
    [curr_loss] of one task of the batch. *)
Definition calc_loss_task (self : PhantasmLight) (name : string) (batch : pyval)
  : M tensor :=
  emit (EvTask name);;
  task ← lift (dict_item (task_dict self) name);
  let idx := if negb (truthy (TaskFamily.ctrl_token task)) then 0%Z else 1%Z in
  if bool_decide (TaskFamily.type task ≠ "classification") then
    query ← lift (getitem2 batch 0 0);
    pos ← lift (getitem2 batch 0 1);
    neg ← lift (getitem2 batch 0 2);
    query_emb ← forward self query idx;
    pos_emb ← forward self pos idx;
    neg_emb ← forward self neg idx;
    lift (TaskFamily.loss task [PyTensor query_emb; PyTensor pos_emb; PyTensor neg_emb])
  else
    x ← lift (getitem batch 0);
    y ← lift (getitem batch 1);
    encoding ← forward self x idx;
    head ← lift (heads_item self name);
    logits ← lift (head_call ext head encoding);
    curr_loss ← lift (TaskFamily.loss task [PyTensor logits; y]);
    if TaskFamily.multi_label task then lift (tmean_dim1 curr_loss)
    else mret curr_loss.

(** The loop of [calc_loss] over [train_batch.items()], with its two
    accumulators. *)
Fixpoint calc_loss_loop (self : PhantasmLight) (items : list (string * pyval))
    (losses : list tensor) (loss_per_task : odict num)
  : M (list tensor * odict num) :=
  match items with
  | [] => mret (losses, loss_per_task)
  | (name, batch) :: items' =>
    curr_loss ← calc_loss_task self name batch;
    calc_loss_loop self items' (losses ++ [curr_loss])
      (dict_set loss_per_task name (tmean curr_loss))
  end.

(** [PhantasmLight.calc_loss] *)
Definition calc_loss (self : PhantasmLight) (train_batch : odict pyval)
    (batch_idx : Z) : M (num * odict num) :=
  '(losses, loss_per_task) ← calc_loss_loop self train_batch [] [];
  cat ← lift (tcat losses);
  mret (tmean cat, loss_per_task).

(** [PhantasmLight.load_data]: the list handed to [CustomChainDataset].  The
    file, field and label arguments are passed through from the task and are
    left out. *)
Definition load_data (self : PhantasmLight) (split : string) : list dataset :=
  map (λ '(t_name, task),
         let op_token := if use_ctrl_tokens self
                         then TaskFamily.ctrl_token task else None in
         let sample_size := if bool_decide (split = "train")
                            then 400000%Z else 80000%Z in
         {| ds_kind :=
              if bool_decide (TaskFamily.type task = "classification") then
                if TaskFamily.multi_label task
                then MultiLabelClassificationDataset else ClassificationDataset
              else if bool_decide (TaskFamily.type task = "ir") then IRDataset
              else TripletDataset;
            ds_task_name := t_name;
            ds_ctrl_token := op_token;
            ds_sample_size := sample_size |})
      (task_dict self).

(** [PhantasmLight.on_save_checkpoint]: three exports, each to the path its
    f-string builds.  The [checkpoint] argument is not used. *)
Definition on_save_checkpoint (self : PhantasmLight) (logger : Logger) : M unit :=
  emit (EvSaveModel
          (save_dir logger +:+ "/" +:+ logger_name logger +:+ "/" +:+
           format_version (logger_version logger) +:+ "/checkpoints/model/")
          (encoder self));;
  emit (EvSaveTokenizer
          (save_dir logger +:+ "/" +:+ logger_name logger +:+ "/" +:+
           format_version (logger_version logger) +:+ "/checkpoints/tokenizer/")
          (tokenizer self));;
  emit (EvSaveVocabulary
          (save_dir logger +:+ "/" +:+ logger_name logger +:+ "/" +:+
           format_version (logger_version logger) +:+ "/checkpoints/tokenizer/")
          (tokenizer self)).

End PhantasmLight.

(** ** Vocabulary of the statements *)

(** *** Readings of a log *)

(** The inputs the encoder was run on, the sizes the embedding matrix was
    resized to, and the token lists registered with the tokenizer, each in
    the order of the log. *)
Definition encoder_calls (l : list event) : list pyval :=
  omap (λ e, match e with EvEncoder x => Some x | _ => None end) l.

Definition resizes (l : list event) : list nat :=
  omap (λ e, match e with EvResize n => Some n | _ => None end) l.

Definition registrations (l : list event) : list (list string) :=
  omap (λ e, match e with EvAddSpecialTokens toks => Some toks | _ => None end) l.

(** The position each task asked [forward] for: every [EvForward] of the log
    with the task whose loop iteration it falls in. *)
Fixpoint requests_from (cur : option string) (l : list event) : list (string * Z) :=
  match l with
  | [] => []
  | EvTask n :: l' => requests_from (Some n) l'
  | EvForward _ i :: l' =>
    match cur with
    | Some n => (n, i) :: requests_from cur l'
    | None => requests_from cur l'
    end
  | _ :: l' => requests_from cur l'
  end.

Definition requests (l : list event) : list (string * Z) := requests_from None l.

(** *** The loss aggregator *)

(** Step 1 of the loss aggregator: position 1 for a task that declares a
    control token, position 0 otherwise. *)
Definition position_of (task : TaskFamily.t) : Z :=
  if truthy (TaskFamily.ctrl_token task) then 1%Z else 0%Z.

(** Events a loop iteration for [name] may perform after its [EvTask]: runs
    of the encoder, and requests for the position its task declares. *)
Definition iteration_event (self : PhantasmLight) (name : string) (e : event) : Prop :=
  match e with
  | EvForward _ i =>
    ∃ task, dict_get (task_dict self) name = Some task ∧ i = position_of task
  | EvEncoder _ => True
  | _ => False
  end.

(** What the single-encoding path does with the encoding: the head
    registered under the task's key, the task's loss on logits and labels,
    and the mean over the label dimension for a multi-label task. *)
Definition head_and_loss (ext : Externals) (self : PhantasmLight)
    (name : string) (task : TaskFamily.t) (encoding : tensor) (y : pyval)
  : result tensor :=
  rbind (heads_item self name) (λ head,
  rbind (head_call ext head encoding) (λ logits,
  rbind (TaskFamily.loss task [PyTensor logits; y]) (λ curr_loss,
  if TaskFamily.multi_label task then tmean_dim1 curr_loss else Ok curr_loss))).

(** [task_losses ext self name batch l]: the loop iteration for task [name]
    on payload [batch] is a well-formed one and yields the per-example losses
    [l], by one of three ways: the three-way path with a per-example loss;
    the single-encoding path with a per-example loss; the single-encoding
    path of a multi-label task, whose per-label losses [[batch, num_labels]]
    are reduced to their mean per example. *)
Inductive task_losses (ext : Externals) (self : PhantasmLight)
    (name : string) (batch : pyval) : list num → Prop :=
  | losses_three_way task query pos neg query_emb pos_emb neg_emb l :
      dict_get (task_dict self) name = Some task →
      TaskFamily.type task ≠ "classification" →
      getitem2 batch 0 0 = Ok query →
      getitem2 batch 0 1 = Ok pos →
      getitem2 batch 0 2 = Ok neg →
      val (forward ext self query (position_of task)) = Ok query_emb →
      val (forward ext self pos (position_of task)) = Ok pos_emb →
      val (forward ext self neg (position_of task)) = Ok neg_emb →
      TaskFamily.loss task
        [PyTensor query_emb; PyTensor pos_emb; PyTensor neg_emb] = Ok (T1 l) →
      task_losses ext self name batch l
  | losses_single task x y encoding head logits l :
      dict_get (task_dict self) name = Some task →
      TaskFamily.type task = "classification" →
      TaskFamily.multi_label task = false →
      getitem batch 0 = Ok x →
      getitem batch 1 = Ok y →
      val (forward ext self x (position_of task)) = Ok encoding →
      heads self !! name = Some head →
      head_call ext head encoding = Ok logits →
      TaskFamily.loss task [PyTensor logits; y] = Ok (T1 l) →
      task_losses ext self name batch l
  | losses_multi_label task x y encoding head logits c rows :
      dict_get (task_dict self) name = Some task →
      TaskFamily.type task = "classification" →
      TaskFamily.multi_label task = true →
      getitem batch 0 = Ok x →
      getitem batch 1 = Ok y →
      val (forward ext self x (position_of task)) = Ok encoding →
      heads self !! name = Some head →
      head_call ext head encoding = Ok logits →
      TaskFamily.loss task [PyTensor logits; y] = Ok (T2 c rows) →
      task_losses ext self name batch (mean_list <$> rows).

(** The loss tensor an iteration ends with, and the entry it records. *)
Definition iteration_ok (ext : Externals) (self : PhantasmLight)
    (item : string * pyval) : Prop :=
  ∃ t, val (calc_loss_task ext self item.1 item.2) = Ok t.

Definition curr_loss_of (ext : Externals) (self : PhantasmLight)
    (item : string * pyval) : tensor :=
  match val (calc_loss_task ext self item.1 item.2) with
  | Ok t => t
  | Raise _ => T1 []
  end.

Definition entry_of (ext : Externals) (self : PhantasmLight)
    (item : string * pyval) : string * num :=
  (item.1, tmean (curr_loss_of ext self item)).

(** The tensors [torch.cat] does not skip. *)
Definition kept (ts : list tensor) : list tensor :=
  List.filter (λ t, negb (skipped_by_cat t)) ts.

(** The module with another head table. *)
Definition with_heads (self : PhantasmLight) (hs : gmap string Head) : PhantasmLight :=
  {| task_dict := task_dict self; heads := hs; encoder := encoder self;
     tokenizer := tokenizer self; use_ctrl_tokens := use_ctrl_tokens self;
     batch_size := batch_size self; lr := lr self |}.

(** *** Construction, optimizer groups and checkpoints *)

(** The registry a construction ends up with: the argument, unless it is
    [None] or empty. *)
Definition effective_registry (ext : Externals)
    (task_dict : option (odict TaskFamily.t)) : odict TaskFamily.t :=
  match task_dict with
  | Some ((_ :: _) as d) => d
  | _ => load_tasks ext
  end.

(** The control token set of the specification: the distinct [ctrl_token]
    values of the registered tasks, and empty if conditioning is disabled.
    A task declares a token when its [ctrl_token] is a non-empty string. *)
Definition control_token_set (conditioning : bool) (td : odict TaskFamily.t)
    (tok : string) : Prop :=
  conditioning = true ∧
  ∃ t, t ∈ values td ∧ TaskFamily.ctrl_token t = Some tok ∧
       truthy (TaskFamily.ctrl_token t) = true.

(** What Python guarantees of [list(set(l))] whatever the hashing: the
    elements of [l], each once. *)
Definition set_listing (ext : Externals) : Prop :=
  ∀ l, NoDup (list_set ext l) ∧ ∀ x, x ∈ list_set ext l ↔ x ∈ l.

(** A name [torch.nn.ModuleDict] accepts for a new entry. *)
Definition valid_module_name (ext : Externals) (n : string) : Prop :=
  has_attribute ext n = false ∧ str_in "." n = false ∧ n ≠ EmptyString.

(** Every task that owns a head has a name a [ModuleDict] accepts. *)
Definition valid_head_names (ext : Externals) (td : odict TaskFamily.t) : Prop :=
  ∀ t, t ∈ values td → is_Some (TaskFamily.head t) →
       valid_module_name ext (TaskFamily.name t).

(** The encoder and the tokenizer as loaded from the checkpoint. *)
Definition pretrained_encoder (ext : Externals) : Encoder :=
  AutoModel_from_pretrained ext "allenai/specter".
Definition pretrained_tokenizer (ext : Externals) : Tokenizer :=
  AutoTokenizer_from_pretrained ext "allenai/specter".

(** A name matches the exclusion list when one of its entries occurs in it. *)
Definition matches_no_decay (n : string) : Prop :=
  ∃ nd pre post, nd ∈ ["bias"; "LayerNorm.weight"] ∧ n = pre +:+ nd +:+ post.

(** The artifact layout [<save_dir>/<run_name>/<run_version>/checkpoints/<sub>/]. *)
Definition checkpoint_dir (logger : Logger) (sub : string) : string :=
  save_dir logger +:+ "/" +:+ logger_name logger +:+ "/" +:+
  format_version (logger_version logger) +:+ "/checkpoints/" +:+ sub +:+ "/".

(** Closing a decidable goal about concrete data by evaluation. *)
Ltac by_evaluation := refine (bool_decide_unpack _ _); vm_compute; exact I.

(** ** A small concrete instance

    Two registered tasks in the shape of the spec's end-to-end scenario: a
    classification task with a head and no control token, and a retrieval
    task with the control token ["[B]"]; a five-token vocabulary; an encoder
    whose hidden state at a position is the embedding row of the token
    there. *)

Module Demo.

Definition tok0 : Tokenizer :=
  {| vocab := ["[PAD]"; "[CLS]"; "[SEP]"; "a"; "b"];
     cls_token_id := 1;
     additional_special_tokens := [] |}.

Definition enc0 : Encoder :=
  {| checkpoint := "allenai/specter";
     word_embeddings :=
       [[Fin 0; Fin 0]; [Fin 1; Fin (1 # 2)]; [Fin 2; Fin 0];
        [Fin 3; Fin 1]; [Fin 4; Fin (-1)]]%Q |}.

Definition token_id (x : num) : nat :=
  match x with
  | Fin q => Z.to_nat (Qfloor q)
  | NonFin => 0
  end.

Definition encode (enc : Encoder) (x : pyval) : result hidden_states :=
  match x with
  | PyTensor (T2 c rows) =>
    Ok {| seq_len := c; hidden_size := 2;
          last_hidden_state :=
            map (map (λ id, nth (token_id id) (word_embeddings enc) [])) rows |}
  | _ => Raise (TypeError "encoder: expected input ids of shape [batch, seq]")
  end.

(** Ranking loss per example: first coordinates, [q - p + n]. *)
Definition first (r : list num) : num := nth 0 r NonFin.

Definition nneg (a : num) : num :=
  match a with Fin q => Fin (- q)%Q | NonFin => NonFin end.

Definition triplet_loss (args : list pyval) : result tensor :=
  match args with
  | [PyTensor (T2 _ q); PyTensor (T2 _ p); PyTensor (T2 _ n)] =>
    Ok (T1 (zip_with nadd (zip_with nadd (first <$> q) (nneg ∘ first <$> p))
              (first <$> n)))
  | _ => Raise (TypeError "loss: expected three embeddings")
  end.

(** Classification loss per example: first logit minus the label. *)
Definition cls_loss (args : list pyval) : result tensor :=
  match args with
  | [PyTensor (T2 _ logits); PyTensor (T1 y)] =>
    Ok (T1 (zip_with nadd (first <$> logits) (nneg <$> y)))
  | _ => Raise (TypeError "loss: expected logits and labels")
  end.

(** Per-label loss: every logit as it is, one row per example. *)
Definition per_label_loss (args : list pyval) : result tensor :=
  match args with
  | [PyTensor (T2 c logits); _] => Ok (T2 c logits)
  | _ => Raise (TypeError "loss: expected logits and labels")
  end.

Definition head_a : Head :=
  {| linear_weight := [[Fin 1; Fin 0]; [Fin 0; Fin 1]]%Q; linear_bias := Some [Fin 0; Fin 0]%Q |}.

Definition task_a : TaskFamily.t :=
  {| TaskFamily.name := "task_a"; TaskFamily.type := "classification";
     TaskFamily.head := Some head_a; TaskFamily.ctrl_token := None;
     TaskFamily.loss := cls_loss; TaskFamily.multi_label := false |}.

Definition task_b : TaskFamily.t :=
  {| TaskFamily.name := "task_b"; TaskFamily.type := "ir";
     TaskFamily.head := None; TaskFamily.ctrl_token := Some "[B]";
     TaskFamily.loss := triplet_loss; TaskFamily.multi_label := false |}.

Definition registry : odict TaskFamily.t :=
  [("task_a", task_a); ("task_b", task_b)].

Definition ext : Externals :=
  {| load_tasks := registry;
     AutoModel_from_pretrained := λ _, enc0;
     AutoTokenizer_from_pretrained := λ _, tok0;
     encoder_call := encode;
     head_call := λ _ encoding, Ok encoding;
     init_row := λ i, [Fin (inject_Z (Z.of_nat i)); Fin 7]%Q;
     normal_like := λ w, w;
     named_parameters := λ _,
       [("encoder.embeddings.word_embeddings.weight", 0%nat);
        ("encoder.embeddings.LayerNorm.weight", 1%nat);
        ("encoder.embeddings.LayerNorm.bias", 2%nat);
        ("encoder.pooler.dense.weight", 3%nat);
        ("encoder.pooler.dense.bias", 4%nat);
        ("heads.task_a.linear.weight", 5%nat);
        ("heads.task_a.linear.bias", 6%nat)];
     list_set := λ l, reverse (remove_dups l);
     has_attribute := λ n,
       bool_decide (n ∈ ["training"; "forward"; "keys"; "values"; "items";
                         "pop"; "clear"; "update"; "type"]) |}.

Definition ids (rows : list (list Z)) (c : nat) : pyval :=
  PyTensor (T2 c (map (map (λ z, Fin (inject_Z z))) rows)).

(** [task_a]: two examples with labels; [task_b]: one triple. *)
Definition batch_a : pyval :=
  PyTuple [ids [[1; 3; 2]; [1; 4; 2]]%Z 3; PyTensor (T1 [Fin 0; Fin 1]%Q)].

Definition batch_b : pyval :=
  PyTuple [PyTuple [ids [[1; 3; 2]]%Z 3; ids [[1; 3; 3]]%Z 3; ids [[1; 4; 4]]%Z 3]].

Definition train_batch : odict pyval :=
  [("task_a", batch_a); ("task_b", batch_b)].

(** The module as the driver builds it ([use_ctrl_tokens=False]), and with
    control tokens switched on. *)
Definition plain : PhantasmLight :=
  {| task_dict := registry;
     heads := {["task_a" := head_a]};
     encoder := enc0; tokenizer := tok0;
     use_ctrl_tokens := false; batch_size := 16; lr := (1 # 1000000)%Q |}.

Definition extended : PhantasmLight :=
  {| task_dict := registry;
     heads := {["task_a" := head_a]};
     encoder :=
       {| checkpoint := "allenai/specter";
          word_embeddings :=
            [[Fin 0; Fin 0]; [Fin 1; Fin (1 # 2)]; [Fin 2; Fin 0];
             [Fin 3; Fin 1]; [Fin 4; Fin (-1)]; [Fin 1; Fin (1 # 2)]]%Q |};
     tokenizer :=
       {| vocab := ["[PAD]"; "[CLS]"; "[SEP]"; "a"; "b"; "[B]"];
          cls_token_id := 1;
          additional_special_tokens := ["[B]"] |};
     use_ctrl_tokens := true; batch_size := 16; lr := (1 # 1000000)%Q |}.

(** A registry with two more classification tasks: one whose type string is
    ["multi_label_classification"], and one that owns no head. *)
Definition task_m : TaskFamily.t :=
  {| TaskFamily.name := "task_m"; TaskFamily.type := "multi_label_classification";
     TaskFamily.head := Some head_a; TaskFamily.ctrl_token := None;
     TaskFamily.loss := per_label_loss; TaskFamily.multi_label := true |}.

Definition task_c : TaskFamily.t :=
  {| TaskFamily.name := "task_c"; TaskFamily.type := "classification";
     TaskFamily.head := None; TaskFamily.ctrl_token := None;
     TaskFamily.loss := cls_loss; TaskFamily.multi_label := false |}.

(** A multi-label task declared the way [load_data] expects it: type
    ["classification"] with the [multi_label] flag. *)
Definition task_l : TaskFamily.t :=
  {| TaskFamily.name := "task_l"; TaskFamily.type := "classification";
     TaskFamily.head := Some head_a; TaskFamily.ctrl_token := None;
     TaskFamily.loss := per_label_loss; TaskFamily.multi_label := true |}.

Definition registry' : odict TaskFamily.t :=
  [("task_a", task_a); ("task_b", task_b); ("task_m", task_m);
   ("task_c", task_c); ("task_l", task_l)].

Definition plain' : PhantasmLight :=
  {| task_dict := registry';
     heads := {["task_a" := head_a; "task_m" := head_a; "task_l" := head_a]};
     encoder := enc0; tokenizer := tok0;
     use_ctrl_tokens := false; batch_size := 16; lr := (1 # 1000000)%Q |}.

(** Three examples with labels. *)
Definition batch_m : pyval :=
  PyTuple [ids [[1; 3; 2]; [1; 4; 2]; [1; 4; 3]]%Z 3;
           PyTensor (T2 2 [[Fin 0; Fin 1]; [Fin 1; Fin 1]; [Fin 0; Fin 0]]%Q)].

Definition logger : Logger :=
  {| save_dir := "./lightning_logs/"; logger_name := "full_run";
     logger_version := VStr "all" |}.

End Demo.

(** * The rest of the module: steps, data loading and the driver *)

(** ** Training and validation steps *)

(** A call of [self.log]: the metric's name and value and the keyword
    arguments the call gives; an argument that is not given is [None] and
    keeps Lightning's default. *)
Module Log.
Record call : Type := {
  name : string;
  value : num;
  prog_bar : option bool;
  on_step : option bool;
  on_epoch : option bool;
  batch_size : option Z;
  rank_zero_only : option bool;
  sync_dist : option bool;
  logger : option bool
}.
End Log.

(** A step: the events of its [calc_loss], the [self.log] calls made after
    it, and the dictionary returned or the exception raised. *)
Definition step_run : Type := list event * list Log.call * result (odict num).

Section Steps.
Variable ext : Externals.

(** [PhantasmLight.training_step].  [get_last_lr] is what
    [self.lr_schedulers().get_last_lr()] answers; the step logs its last
    element. *)
Definition training_step (self : PhantasmLight) (train_batch : odict pyval)
    (batch_idx : Z) (get_last_lr : list num) : step_run :=
  match calc_loss ext self train_batch batch_idx with
  | (l, Raise e) => (l, [], Raise e)
  | (l, Ok (loss, loss_per_task)) =>
    let train_loss :=
      {| Log.name := "train_loss"; Log.value := loss;
         Log.prog_bar := Some true; Log.on_step := Some true;
         Log.on_epoch := Some true; Log.batch_size := Some (batch_size self);
         Log.rank_zero_only := None; Log.sync_dist := None;
         Log.logger := None |} in
    match last get_last_lr with
    | None => (l, [train_loss], Raise (IndexError "list index out of range"))
    | Some rate =>
      (l,
       [train_loss;
        {| Log.name := "lr"; Log.value := rate;
           Log.prog_bar := Some true; Log.on_step := Some true;
           Log.on_epoch := Some false; Log.batch_size := None;
           Log.rank_zero_only := None; Log.sync_dist := None;
           Log.logger := Some true |}],
       Ok [("loss", loss)])
    end
  end.

(** [PhantasmLight.validation_step] *)
Definition validation_step (self : PhantasmLight) (train_batch : odict pyval)
    (batch_idx : Z) : step_run :=
  match calc_loss ext self train_batch batch_idx with
  | (l, Raise e) => (l, [], Raise e)
  | (l, Ok (loss, loss_per_task)) =>
    (l,
     map (λ '(task, task_loss),
            {| Log.name := "val_loss_" +:+ task; Log.value := task_loss;
               Log.prog_bar := Some false; Log.on_step := Some true;
               Log.on_epoch := Some true;
               Log.batch_size := Some (batch_size self);
               Log.rank_zero_only := Some true; Log.sync_dist := None;
               Log.logger := None |}) loss_per_task ++
     [{| Log.name := "val_loss"; Log.value := loss;
         Log.prog_bar := Some true; Log.on_step := Some true;
         Log.on_epoch := Some false; Log.batch_size := None;
         Log.rank_zero_only := None; Log.sync_dist := None;
         Log.logger := None |};
      {| Log.name := "avg_val_loss"; Log.value := loss;
         Log.prog_bar := Some true; Log.on_step := None;
         Log.on_epoch := Some true; Log.batch_size := Some (batch_size self);
         Log.rank_zero_only := None; Log.sync_dist := Some true;
         Log.logger := None |}],
     Ok [("val_loss", loss)])
  end.

End Steps.

(** ** Data loading *)

(** The attributes of a task that only [load_data] reads. *)
Record TaskData : Type := {
  data_files : odict string;
  input_fields : list string;
  labels_field : string;
  labels : list string
}.

(** A dataset as [load_data] constructs it: the constructor, the task name,
    the control token and the sample size, and the file, field and label
    arguments.  The retrieval and triplet datasets take no label
    arguments.  The constructors are defined outside this module; a
    construction is the record of its arguments, and the only failure
    modelled is the lookup [task.data_files[split]] among them. *)
Record dataset_args : Type := {
  da_dataset : dataset;
  json_file : string;
  fields : list string;
  label_field : option string;
  da_labels : option (list string)
}.

(** [CustomChainDataset(dataset_list, batch_size, device_rank, num_devices,
    batching_strategy)] *)
Record CustomChainDataset : Type := {
  datasets : list dataset_args;
  chain_batch_size : Z;
  device_rank : Z;
  num_devices : Z;
  batching_strategy : string
}.

(** What the module reads of [self.trainer]. *)
Record Trainer : Type := {
  global_rank : Z;
  world_size : Z
}.

(** The three dataset attributes of the module, [None] after
    construction. *)
Record loaders : Type := {
  multi_train : option CustomChainDataset;
  multi_test : option CustomChainDataset;
  multi_val : option CustomChainDataset
}.

Definition no_loaders : loaders :=
  {| multi_train := None; multi_test := None; multi_val := None |}.

(** [DataLoader(dataset, batch_size, collate_fn=multi_collate, num_workers)] *)
Record DataLoader : Type := {
  dl_dataset : option CustomChainDataset;
  dl_batch_size : Z;
  dl_num_workers : Z
}.

(** A sequence of fallible constructions, stopping at the first exception. *)
Fixpoint sequence_results {A} (rs : list (result A)) : result (list A) :=
  match rs with
  | [] => Ok []
  | r :: rs' =>
    rbind r (λ a, rbind (sequence_results rs') (λ l, Ok (a :: l)))
  end.

Section DataLoading.
Variable task_data : TaskFamily.t → TaskData.

(** One turn of the loop of [load_data]: the dataset appended for a task. *)
Definition load_dataset (self : PhantasmLight) (split : string)
    (t_name : string) (task : TaskFamily.t) : result dataset_args :=
  let op_token := if use_ctrl_tokens self
                  then TaskFamily.ctrl_token task else None in
  let sample_size := if bool_decide (split = "train")
                     then 400000%Z else 80000%Z in
  rbind (dict_item (data_files (task_data task)) split) (λ file,
  if bool_decide (TaskFamily.type task = "classification") then
    Ok {| da_dataset :=
            {| ds_kind := if TaskFamily.multi_label task
                          then MultiLabelClassificationDataset
                          else ClassificationDataset;
               ds_task_name := t_name; ds_ctrl_token := op_token;
               ds_sample_size := sample_size |};
          json_file := file;
          fields := input_fields (task_data task);
          label_field := Some (labels_field (task_data task));
          da_labels := Some (labels (task_data task)) |}
  else
    Ok {| da_dataset :=
            {| ds_kind := if bool_decide (TaskFamily.type task = "ir")
                          then IRDataset else TripletDataset;
               ds_task_name := t_name; ds_ctrl_token := op_token;
               ds_sample_size := sample_size |};
          json_file := file;
          fields := input_fields (task_data task);
          label_field := None;
          da_labels := None |}).

(** [PhantasmLight.load_data] in full: the dataset list, the chained dataset
    over it, and the attribute the split selects. *)
Definition load_data_into (self : PhantasmLight) (trainer : Trainer)
    (split : string) (ld : loaders) : result loaders :=
  rbind (sequence_results
           (map (λ '(t_name, task), load_dataset self split t_name task)
              (task_dict self))) (λ dataset_list,
  let multi_dataset :=
    {| datasets := dataset_list; chain_batch_size := batch_size self;
       device_rank := global_rank trainer; num_devices := world_size trainer;
       batching_strategy := "MIXED_PROPORTIONAL" |} in
  if bool_decide (split = "train") then
    Ok {| multi_train := Some multi_dataset; multi_test := multi_test ld;
          multi_val := multi_val ld |}
  else if bool_decide (split = "dev") then
    Ok {| multi_train := multi_train ld; multi_test := multi_test ld;
          multi_val := Some multi_dataset |}
  else Ok ld).

(** [PhantasmLight.setup]: the stage is not looked at. *)
Definition setup (self : PhantasmLight) (trainer : Trainer)
    (stage : option string) (ld : loaders) : result loaders :=
  load_data_into self trainer "train" ld.

(** [PhantasmLight.train_dataloader] *)
Definition train_dataloader (self : PhantasmLight) (ld : loaders) : DataLoader :=
  {| dl_dataset := multi_train ld; dl_batch_size := batch_size self;
     dl_num_workers := 0 |}.

(** [PhantasmLight.val_dataloader] *)
Definition val_dataloader (self : PhantasmLight) (trainer : Trainer)
    (ld : loaders) : result (loaders * DataLoader) :=
  rbind (load_data_into self trainer "dev" ld) (λ ld',
  Ok (ld', {| dl_dataset := multi_val ld'; dl_batch_size := batch_size self;
              dl_num_workers := 3 |})).

End DataLoading.

(** ** The driver *)

(** [ModelCheckpoint(dirpath, filename, save_top_k, verbose, monitor, mode)] *)
Record ModelCheckpoint : Type := {
  dirpath : string;
  filename : string;
  save_top_k : Z;
  verbose : bool;
  monitor : string;
  mode : string
}.

(** The f-string of line 203, over a log directory and a logger. *)
Definition filepath_of (log_dir : string) (logger : Logger) : string :=
  log_dir +:+ "/" +:+ logger_name logger +:+ "/" +:+
  format_version (logger_version logger) +:+ "/checkpoints/".

Definition log_dir : string := "./lightning_logs/".

Definition main_logger : Logger :=
  {| save_dir := log_dir; logger_name := "full_run";
     logger_version := VStr "all" |}.

Definition filepath : string := filepath_of log_dir main_logger.

Definition checkpoint_callback : ModelCheckpoint :=
  {| dirpath := filepath;
     filename := "ep-{epoch}_avg_val_loss-{avg_val_loss:.3f}";
     save_top_k := 4; verbose := true;
     monitor := "avg_val_loss"; mode := "min" |}.

(** [PhantasmLight(batch_size=16, use_ctrl_tokens=False)] *)
Definition main_model (ext : Externals) : M PhantasmLight :=
  init ext 16 false None.

(** ** Vocabulary of the further statements *)

(** The names of the metrics a step logged, in order. *)
Definition logged (r : step_run) : list Log.call := r.1.2.

(** Whether a dataset yields [(inputs, labels)] pairs rather than triples. *)
Definition yields_pairs (k : dataset_kind) : bool :=
  match k with
  | MultiLabelClassificationDataset | ClassificationDataset => true
  | IRDataset | TripletDataset => false
  end.

(** ** A second concrete instance

    The data files of the tasks of [Demo], a trainer on the first of four
    devices, a registry whose key differs from the task's name, and loss
    functions that return a reduced scalar. *)

Module Demo2.

Definition task_data (task : TaskFamily.t) : TaskData :=
  {| data_files :=
       [("train", "data/" +:+ TaskFamily.name task +:+ "/train.jsonl");
        ("dev", "data/" +:+ TaskFamily.name task +:+ "/dev.jsonl")];
     input_fields := ["title"; "abstract"];
     labels_field := "label";
     labels := ["0"; "1"] |}.

Definition trainer : Trainer := {| global_rank := 0; world_size := 4 |}.

(** [task_a] registered under another key. *)
Definition renamed : odict TaskFamily.t := [("fos", Demo.task_a)].

Definition renamed_model : PhantasmLight :=
  {| task_dict := renamed;
     heads := {["task_a" := Demo.head_a]};
     encoder := Demo.enc0; tokenizer := Demo.tok0;
     use_ctrl_tokens := false; batch_size := 16; lr := (1 # 1000000)%Q |}.

(** A retrieval task whose loss is reduced to a scalar. *)
Definition scalar_loss (args : list pyval) : result tensor :=
  rbind (Demo.triplet_loss args) (λ t, Ok (T0 (tmean t))).

Definition task_s : TaskFamily.t :=
  {| TaskFamily.name := "task_s"; TaskFamily.type := "ir";
     TaskFamily.head := None; TaskFamily.ctrl_token := None;
     TaskFamily.loss := scalar_loss; TaskFamily.multi_label := false |}.

(** A task with [multi_label] set whose loss is already per example. *)
Definition task_v : TaskFamily.t :=
  {| TaskFamily.name := "task_v"; TaskFamily.type := "classification";
     TaskFamily.head := Some Demo.head_a; TaskFamily.ctrl_token := None;
     TaskFamily.loss := Demo.cls_loss; TaskFamily.multi_label := true |}.

Definition registry : odict TaskFamily.t :=
  [("task_a", Demo.task_a); ("task_s", task_s); ("task_v", task_v)].

(** A task that owns a head and whose name contains a dot. *)
Definition task_d : TaskFamily.t :=
  {| TaskFamily.name := "cls.fos"; TaskFamily.type := "classification";
     TaskFamily.head := Some Demo.head_a; TaskFamily.ctrl_token := Some "[D]";
     TaskFamily.loss := Demo.cls_loss; TaskFamily.multi_label := false |}.

Definition dotted : odict TaskFamily.t :=
  [("task_b", Demo.task_b); ("fos", task_d)].

Definition model : PhantasmLight :=
  {| task_dict := registry;
     heads := {["task_a" := Demo.head_a; "task_v" := Demo.head_a]};
     encoder := Demo.enc0; tokenizer := Demo.tok0;
     use_ctrl_tokens := false; batch_size := 16; lr := (1 # 1000000)%Q |}.

End Demo2.

(** * Properties *)

(** ** Scalars, results and the effect monad *)

Lemma log_bind {A B} (m : M A) (f : A → M B) :
  log (m ≫= f) =
  match val m with
  | Ok a => log m ++ log (f a)
  | Raise _ => log m
  end.
Proof.
  destruct m as [l [a|e]]; simpl; [|done].
  unfold mbind, M_bind. by destruct (f a).
Qed.

Lemma val_bind {A B} (m : M A) (f : A → M B) :
  val (m ≫= f) = rbind (val m) (λ a, val (f a)).
Proof.
  destruct m as [l [a|e]]; simpl; [|done].
  unfold mbind, M_bind. by destruct (f a).
Qed.

Lemma bind_ok {A B} (m : M A) (f : A → M B) l a :
  m = (l, Ok a) → m ≫= f = (l ++ log (f a), val (f a)).
Proof. intros ->. unfold mbind, M_bind. by destruct (f a). Qed.

Lemma bind_raise {A B} (m : M A) (f : A → M B) l e :
  m = (l, Raise e) → m ≫= f = (l, Raise e).
Proof. by intros ->. Qed.

Lemma M_eta {A} (m : M A) : m = (log m, val m).
Proof. by destruct m. Qed.

(** ** Substrings *)

Lemma append_cons a s t : String a s +:+ t = String a (s +:+ t).
Proof. reflexivity. Qed.

Lemma prefix_spec nd n :
  String.prefix nd n = true ↔ ∃ post, n = nd +:+ post.
Proof.
  revert n. induction nd as [|a nd IH]; intros n.
  - destruct n; (split; [eauto|done]).
  - destruct n as [|b n]; simpl.
    + split; [done|]. by intros [post ?].
    + destruct (Ascii.ascii_dec a b) as [->|Hne].
      * rewrite IH. split; intros [post Hp]; exists post;
          rewrite append_cons in *; congruence.
      * split; [done|]. intros [post Hp]. rewrite append_cons in Hp. congruence.
Qed.

Lemma str_in_spec nd n :
  str_in nd n = true ↔ ∃ pre post, n = pre +:+ nd +:+ post.
Proof.
  induction n as [|a n IH]; cbn [str_in].
  - rewrite orb_false_r, prefix_spec. split.
    + intros [post ->]. by exists "", post.
    + intros [pre [post Hn]]. destruct pre; [by exists post|done].
  - rewrite orb_true_iff, prefix_spec, IH. split.
    + intros [[post ->]|[pre [post ->]]].
      * by exists "", post.
      * by exists (String a pre), post.
    + intros [pre [post Hn]]. destruct pre as [|b pre].
      * left. by exists post.
      * right. exists pre, post. rewrite append_cons in Hn. congruence.
Qed.

Lemma no_decay_spec n :
  existsb (λ nd, str_in nd n) no_decay = true ↔ matches_no_decay n.
Proof.
  unfold matches_no_decay, no_decay. cbn [existsb].
  rewrite orb_false_r, orb_true_iff, !str_in_spec. split.
  - intros [[pre [post ->]]|[pre [post ->]]].
    + exists "bias", pre, post. split; [set_solver|done].
    + exists "LayerNorm.weight", pre, post. split; [set_solver|done].
  - intros [nd [pre [post [Hnd ->]]]].
    apply elem_of_cons in Hnd as [->|Hnd]; [left; eauto|].
    apply elem_of_cons in Hnd as [->|Hnd]; [right; eauto|].
    by apply elem_of_nil in Hnd.
Qed.

(** ** Optimizer parameter groups *)

Lemma filter_partition {A} (f : A → bool) (l : list A) :
  List.filter (λ x, negb (f x)) l ++ List.filter f l ≡ₚ l.
Proof.
  induction l as [|x l IH]; simpl; [done|].
  destruct (f x); simpl.
  - rewrite <- Permutation_middle. by constructor.
  - by constructor.
Qed.

Lemma elem_of_filter_snd {A B} (f : A * B → bool) (l : list (A * B)) b :
  b ∈ (List.filter f l).*2 ↔ ∃ a, (a, b) ∈ l ∧ f (a, b) = true.
Proof.
  rewrite list_elem_of_fmap. split.
  - intros [[a b'] [-> Hin]]. apply list_elem_of_In, filter_In in Hin as [Hin Hf].
    exists a. by rewrite list_elem_of_In.
  - intros [a [Hin Hf]]. exists (a, b). split; [done|].
    apply list_elem_of_In, filter_In. by rewrite <- list_elem_of_In.
Qed.

Lemma NoDup_snd_inj {A B} (l : list (A * B)) a a' b :
  NoDup l.*2 → (a, b) ∈ l → (a', b) ∈ l → a = a'.
Proof.
  induction l as [|[x y] l IH]; simpl; intros Hnd Ha Ha'.
  - by apply elem_of_nil in Ha.
  - apply NoDup_cons in Hnd as [Hy Hnd].
    apply elem_of_cons in Ha as [Ha|Ha], Ha' as [Ha'|Ha'].
    + congruence.
    + exfalso. apply Hy. injection Ha as _ <-.
      apply list_elem_of_fmap. by exists (a', b).
    + exfalso. apply Hy. injection Ha' as _ <-.
      apply list_elem_of_fmap. by exists (a, b).
    + by apply IH.
Qed.

(** C7. [configure_optimizers] builds exactly two parameter groups, both with
    weight decay 0.0.  A named parameter goes to the second group when its
    name contains ["bias"] or ["LayerNorm.weight"] and to the first group
    otherwise; it is in the group it goes to and not in the other one, and
    the two groups together hold every parameter exactly once. *)
Theorem configure_optimizers_partition ext self :
  NoDup (named_parameters ext self).*2 →
  ∃ g0 g1,
    param_groups (optimizer (configure_optimizers ext self)) = [g0; g1] ∧
    weight_decay g0 = 0%Q ∧ weight_decay g1 = 0%Q ∧
    (∀ n p, (n, p) ∈ named_parameters ext self →
       (matches_no_decay n → p ∈ params g1 ∧ p ∉ params g0) ∧
       (¬ matches_no_decay n → p ∈ params g0 ∧ p ∉ params g1)) ∧
    params g0 ++ params g1 ≡ₚ (named_parameters ext self).*2 ∧
    (∀ p, ¬ (p ∈ params g0 ∧ p ∈ params g1)).
Proof.
  intros Hnd. eexists _, _. split; [reflexivity|]. simpl.
  split; [done|]. split; [done|].
  set (nps := named_parameters ext self) in *.
  set (f := λ np : string * param, existsb (λ nd, str_in nd np.1) no_decay).
  assert (Hboth : ∀ p, ¬ (p ∈ (List.filter (λ np, negb (f np)) nps).*2 ∧
                          p ∈ (List.filter f nps).*2)).
  { intros p [[n [Hn Hfn]]%elem_of_filter_snd [n' [Hn' Hfn']]%elem_of_filter_snd].
    rewrite (NoDup_snd_inj nps n n' p Hnd Hn Hn') in Hfn.
    rewrite Hfn' in Hfn. done. }
  split; [|split].
  - intros n p Hin. split.
    + intros Hm%no_decay_spec.
      assert (p ∈ (List.filter f nps).*2) as Hp.
      { apply elem_of_filter_snd. by exists n. }
      split; [done|]. intros Hp'. by apply (Hboth p).
    + intros Hm.
      assert (f (n, p) = false) as Hf.
      { destruct (f (n, p)) eqn:E; [|done]. by apply no_decay_spec in E. }
      assert (p ∈ (List.filter (λ np, negb (f np)) nps).*2) as Hp.
      { apply elem_of_filter_snd. exists n. by rewrite Hf. }
      split; [done|]. intros Hp'. by apply (Hboth p).
  - rewrite <- fmap_app. by rewrite filter_partition.
  - done.
Qed.

Lemma configure_optimizers_partition_witness :
  ∃ g0 g1,
    param_groups (optimizer (configure_optimizers Demo.ext Demo.plain)) = [g0; g1] ∧
    weight_decay g0 = 0%Q ∧ weight_decay g1 = 0%Q ∧
    (∀ n p, (n, p) ∈ named_parameters Demo.ext Demo.plain →
       (matches_no_decay n → p ∈ params g1 ∧ p ∉ params g0) ∧
       (¬ matches_no_decay n → p ∈ params g0 ∧ p ∉ params g1)) ∧
    params g0 ++ params g1 ≡ₚ (named_parameters Demo.ext Demo.plain).*2 ∧
    (∀ p, ¬ (p ∈ params g0 ∧ p ∈ params g1)).
Proof.
  apply (configure_optimizers_partition Demo.ext Demo.plain).
  by_evaluation.
Defined.

(** ** The checkpoint hook *)

Lemma append_inj_r s a b : s +:+ a = s +:+ b → a = b.
Proof.
  induction s as [|c s IH]; [done|].
  rewrite !append_cons. intros [= H]. by apply IH.
Qed.

Lemma checkpoint_dir_inj logger sub sub' :
  checkpoint_dir logger sub = checkpoint_dir logger sub' →
  sub +:+ "/" = sub' +:+ "/".
Proof.
  unfold checkpoint_dir. intros H.
  do 6 apply append_inj_r in H. done.
Qed.

(** C9. On a checkpoint event the hook performs exactly three exports and
    nothing else: the current encoder to
    [<save_dir>/<name>/<version>/checkpoints/model/], then the tokenizer's
    configuration and the tokenizer's vocabulary, both to
    [<save_dir>/<name>/<version>/checkpoints/tokenizer/]; the paths are
    functions of the logger's save directory, name and version alone, the
    two directories differ, and the hook raises nothing. *)
Theorem on_save_checkpoint_exports self logger :
  on_save_checkpoint self logger =
  ([EvSaveModel (checkpoint_dir logger "model") (encoder self);
    EvSaveTokenizer (checkpoint_dir logger "tokenizer") (tokenizer self);
    EvSaveVocabulary (checkpoint_dir logger "tokenizer") (tokenizer self)],
   Ok tt) ∧
  checkpoint_dir logger "model" ≠ checkpoint_dir logger "tokenizer".
Proof.
  split; [reflexivity|]. by intros H%checkpoint_dir_inj.
Qed.

(** The driver's logger: [save_dir] ends in a slash of its own, which the
    path keeps; an integer version prints in decimal. *)
Example driver_checkpoint_dirs :
  checkpoint_dir Demo.logger "model" =
    "./lightning_logs//full_run/all/checkpoints/model/" ∧
  checkpoint_dir Demo.logger "tokenizer" =
    "./lightning_logs//full_run/all/checkpoints/tokenizer/" ∧
  checkpoint_dir {| save_dir := "logs"; logger_name := "run";
                    logger_version := VInt 12 |} "model" =
    "logs/run/12/checkpoints/model/".
Proof. repeat split; vm_compute; reflexivity. Qed.

(** ** The encoder adapter *)

Section Forward.
Variable ext : Externals.
Variable self : PhantasmLight.

Lemma forward_unfold x token_idx :
  forward ext self x token_idx =
  ([EvForward x token_idx; EvEncoder x],
   rbind (encoder_call ext (encoder self) x) (λ h, select_token h token_idx)).
Proof.
  unfold forward, emit, lift, mbind, M_bind. simpl.
  destruct (encoder_call ext (encoder self) x) as [h|e]; simpl; [|done].
  by destruct (select_token h token_idx).
Qed.

Lemma norm_index_nonneg (i : Z) n :
  (0 ≤ i < Z.of_nat n)%Z → norm_index i n = Some (Z.to_nat i).
Proof. intros Hi. unfold norm_index. by rewrite bool_decide_eq_true_2. Qed.

(** A negative position counts from the end of the sequence. *)
Lemma norm_index_neg (i : Z) n :
  (- Z.of_nat n ≤ i < 0)%Z → norm_index i n = Some (Z.to_nat (i + Z.of_nat n)).
Proof.
  intros Hi. unfold norm_index.
  rewrite bool_decide_eq_false_2 by lia. by rewrite bool_decide_eq_true_2.
Qed.

(** X4. A position outside the sequence, past its end or before its start,
    makes [forward] raise [IndexError] after the encoder has run. *)
Lemma forward_out_of_range x token_idx h :
  encoder_call ext (encoder self) x = Ok h →
  (token_idx < - Z.of_nat (seq_len h) ∨ Z.of_nat (seq_len h) ≤ token_idx)%Z →
  val (forward ext self x token_idx) =
  Raise (IndexError "index out of bounds for dimension 1").
Proof.
  intros Hh Hi. rewrite forward_unfold. simpl. rewrite Hh. simpl.
  unfold select_token, norm_index.
  by rewrite !bool_decide_eq_false_2 by lia.
Qed.

Lemma select_token_rows h (token_idx : Z) :
  wf_hidden h → (0 ≤ token_idx < Z.of_nat (seq_len h))%Z →
  ∃ rows, select_token h token_idx = Ok (T2 (hidden_size h) rows) ∧
    length rows = length (last_hidden_state h) ∧
    ∀ b ex, last_hidden_state h !! b = Some ex →
      ∃ v, ex !! Z.to_nat token_idx = Some v ∧ rows !! b = Some v.
Proof.
  intros Hwf Hi. unfold select_token. rewrite norm_index_nonneg by done.
  eexists. split; [reflexivity|]. split; [by rewrite length_map|].
  intros b ex Hb.
  assert (length ex = seq_len h) as Hlen.
  { unfold wf_hidden in Hwf. rewrite Forall_forall in Hwf.
    apply Hwf. by eapply list_elem_of_lookup_2. }
  destruct (lookup_lt_is_Some_2 ex (Z.to_nat token_idx)) as [v Hv]; [lia|].
  exists v. split; [done|].
  rewrite list_lookup_fmap, Hb. simpl. f_equal.
  by apply nth_lookup_Some with (d := []) in Hv.
Qed.

End Forward.

(** ** The log of the loss aggregator *)

Section CalcLossLog.
Variable ext : Externals.
Variable self : PhantasmLight.

Lemma log_bind_Forall {A B} (P : event → Prop) (m : M A) (f : A → M B) :
  Forall P (log m) → (∀ a, val m = Ok a → Forall P (log (f a))) →
  Forall P (log (m ≫= f)).
Proof.
  intros Hm Hf. rewrite log_bind. destruct (val m) as [a|e] eqn:E; [|done].
  apply Forall_app. split; [done|]. by apply Hf.
Qed.

Lemma log_lift_Forall {A} (P : event → Prop) (r : result A) :
  Forall P (log (lift r)).
Proof. constructor. Qed.

Lemma log_mret_Forall {A} (P : event → Prop) (a : A) :
  Forall P (log (mret a : M A)).
Proof. constructor. Qed.

Lemma position_of_idx task :
  (if negb (truthy (TaskFamily.ctrl_token task)) then 0%Z else 1%Z) =
  position_of task.
Proof. unfold position_of. by destruct (truthy _). Qed.

Lemma log_forward_Forall name task x :
  dict_get (task_dict self) name = Some task →
  Forall (iteration_event self name) (log (forward ext self x (position_of task))).
Proof.
  intros Ht. rewrite forward_unfold. simpl.
  repeat constructor. by exists task.
Qed.

Lemma log_emit_bind {B} e (f : unit → M B) :
  log (emit e ≫= f) = e :: log (f tt).
Proof. unfold emit, mbind, M_bind. by destruct (f tt). Qed.

Lemma calc_loss_task_log name batch :
  ∃ rest, log (calc_loss_task ext self name batch) = EvTask name :: rest ∧
          Forall (iteration_event self name) rest.
Proof.
  unfold calc_loss_task. rewrite log_emit_bind.
  eexists. split; [reflexivity|].
  apply log_bind_Forall; [apply log_lift_Forall|].
  intros task Ht. simpl in Ht. unfold dict_item in Ht.
  destruct (dict_get (task_dict self) name) as [task'|] eqn:Hget; [|done].
  injection Ht as ->.
  rewrite position_of_idx.
  case_bool_decide.
  - repeat (apply log_bind_Forall;
            [by auto using log_lift_Forall, log_forward_Forall|]; intros ? _).
    apply log_lift_Forall.
  - repeat (apply log_bind_Forall;
            [by auto using log_lift_Forall, log_forward_Forall|]; intros ? _).
    destruct (TaskFamily.multi_label task);
      [apply log_lift_Forall|apply log_mret_Forall].
Qed.

Lemma requests_from_iteration name cur rest l :
  Forall (iteration_event self name) rest →
  ∃ reqs, requests_from cur ((EvTask name :: rest) ++ l) =
            reqs ++ requests_from (Some name) l ∧
          Forall (λ r, r.1 = name ∧
                       ∃ task, dict_get (task_dict self) name = Some task ∧
                               r.2 = position_of task) reqs.
Proof.
  intros Hrest. simpl. clear cur.
  induction Hrest as [|e rest He _ [reqs [Heq Hreqs]]].
  - exists []. by split.
  - destruct e; simpl in He; try done.
    + exists ((name, token_idx) :: reqs). simpl. rewrite Heq. split; [done|].
      constructor; [by split|done].
    + exists reqs. by split.
Qed.

Lemma calc_loss_loop_requests items cur losses loss_per_task n i :
  (n, i) ∈ requests_from cur (log (calc_loss_loop ext self items losses loss_per_task)) →
  ∃ task, dict_get (task_dict self) n = Some task ∧ i = position_of task.
Proof.
  revert cur losses loss_per_task.
  induction items as [|[name batch] items IH]; intros cur losses loss_per_task; simpl.
  - intros []%elem_of_nil.
  - rewrite log_bind.
    destruct (calc_loss_task_log name batch) as [rest [Hlog Hrest]].
    rewrite Hlog.
    destruct (val (calc_loss_task ext self name batch)) as [curr_loss|e].
    + destruct (requests_from_iteration name cur rest
                  (log (calc_loss_loop ext self items (losses ++ [curr_loss])
                          (dict_set loss_per_task name (tmean curr_loss)))) Hrest)
        as [reqs [-> Hreqs]].
      intros [Hin|Hin]%elem_of_app.
      * rewrite Forall_forall in Hreqs. destruct (Hreqs _ Hin) as [Hn Ht].
        simpl in *. by subst.
      * by eapply IH.
    + destruct (requests_from_iteration name cur rest [] Hrest) as [reqs [Heq Hreqs]].
      rewrite app_nil_r in Heq. rewrite Heq. simpl. rewrite app_nil_r.
      intros Hin. rewrite Forall_forall in Hreqs. destruct (Hreqs _ Hin) as [Hn Ht].
      simpl in *. by subst.
Qed.

Lemma calc_loss_log train_batch batch_idx :
  log (calc_loss ext self train_batch batch_idx) =
  log (calc_loss_loop ext self train_batch [] []).
Proof.
  unfold calc_loss. rewrite log_bind.
  destruct (val (calc_loss_loop ext self train_batch [] [])) as [[losses lpt]|e];
    [|done].
  rewrite log_bind. simpl.
  destruct (tcat losses); simpl; by rewrite app_nil_r.
Qed.

(** Every position [calc_loss] asks [forward] for is the one the task of the
    running iteration declares. *)
Lemma calc_loss_requests train_batch batch_idx n i :
  (n, i) ∈ requests (log (calc_loss ext self train_batch batch_idx)) →
  ∃ task, dict_get (task_dict self) n = Some task ∧ i = position_of task.
Proof. rewrite calc_loss_log. apply calc_loss_loop_requests. Qed.

End CalcLossLog.

(** C8. [forward] runs the shared encoder exactly once, on its input; when
    the encoder returns hidden states with a position [token_idx], the result
    holds, for every example of the batch, the last-layer hidden-state vector
    at that position.  Every position that [calc_loss] requests for a task of
    the batch is 1 when the task declares a control token and 0 otherwise. *)
Theorem forward_selects_position ext self x token_idx h train_batch batch_idx name i :
  encoder_call ext (encoder self) x = Ok h →
  wf_hidden h →
  (0 ≤ token_idx < Z.of_nat (seq_len h))%Z →
  (name, i) ∈ requests (log (calc_loss ext self train_batch batch_idx)) →
  encoder_calls (log (forward ext self x token_idx)) = [x] ∧
  (∃ rows,
     val (forward ext self x token_idx) = Ok (T2 (hidden_size h) rows) ∧
     length rows = length (last_hidden_state h) ∧
     ∀ b ex, last_hidden_state h !! b = Some ex →
       ∃ v, ex !! Z.to_nat token_idx = Some v ∧ rows !! b = Some v) ∧
  ∃ task, dict_get (task_dict self) name = Some task ∧
    i = if truthy (TaskFamily.ctrl_token task) then 1%Z else 0%Z.
Proof.
  intros Hh Hwf Hi Hreq. split; [|split].
  - by rewrite forward_unfold.
  - rewrite forward_unfold. simpl. rewrite Hh. simpl.
    by apply select_token_rows.
  - by apply calc_loss_requests in Hreq.
Qed.

Lemma forward_selects_position_witness :
  encoder_calls
    (log (forward Demo.ext Demo.plain (Demo.ids [[1; 3; 2]; [1; 4; 2]]%Z 3) 1)) =
    [Demo.ids [[1; 3; 2]; [1; 4; 2]]%Z 3] ∧
  (∃ rows,
     val (forward Demo.ext Demo.plain (Demo.ids [[1; 3; 2]; [1; 4; 2]]%Z 3) 1) =
       Ok (T2 2 rows) ∧
     length rows = 2%nat ∧
     ∀ b ex,
       [[[Fin 1; Fin (1 # 2)]; [Fin 3; Fin 1]; [Fin 2; Fin 0]];
        [[Fin 1; Fin (1 # 2)]; [Fin 4; Fin (-1)]; [Fin 2; Fin 0]]]%Q !! b = Some ex →
       ∃ v, ex !! 1%nat = Some v ∧ rows !! b = Some v) ∧
  ∃ task, dict_get (task_dict Demo.plain) "task_b" = Some task ∧
    1%Z = if truthy (TaskFamily.ctrl_token task) then 1%Z else 0%Z.
Proof.
  apply (forward_selects_position Demo.ext Demo.plain
           (Demo.ids [[1; 3; 2]; [1; 4; 2]]%Z 3) 1
           {| seq_len := 3; hidden_size := 2;
              last_hidden_state :=
                [[[Fin 1; Fin (1 # 2)]; [Fin 3; Fin 1]; [Fin 2; Fin 0]];
                 [[Fin 1; Fin (1 # 2)]; [Fin 4; Fin (-1)]; [Fin 2; Fin 0]]]%Q |}
           Demo.train_batch 0 "task_b" 1).
  - reflexivity.
  - repeat constructor.
  - simpl. lia.
  - by_evaluation.
Defined.

(** ** One loop iteration, by path *)

Section Iteration.
Variable ext : Externals.
Variable self : PhantasmLight.

Lemma forward_val_log x token_idx t :
  val (forward ext self x token_idx) = Ok t →
  forward ext self x token_idx = ([EvForward x token_idx; EvEncoder x], Ok t).
Proof. rewrite forward_unfold. simpl. by intros ->. Qed.

(** The three-way path: three encodings at the same position, then the
    task's loss on the three embeddings. *)
Lemma calc_loss_task_three_way name batch task query pos neg query_emb pos_emb neg_emb :
  dict_get (task_dict self) name = Some task →
  TaskFamily.type task ≠ "classification" →
  getitem2 batch 0 0 = Ok query →
  getitem2 batch 0 1 = Ok pos →
  getitem2 batch 0 2 = Ok neg →
  val (forward ext self query (position_of task)) = Ok query_emb →
  val (forward ext self pos (position_of task)) = Ok pos_emb →
  val (forward ext self neg (position_of task)) = Ok neg_emb →
  calc_loss_task ext self name batch =
  ([EvTask name;
    EvForward query (position_of task); EvEncoder query;
    EvForward pos (position_of task); EvEncoder pos;
    EvForward neg (position_of task); EvEncoder neg],
   TaskFamily.loss task [PyTensor query_emb; PyTensor pos_emb; PyTensor neg_emb]).
Proof.
  intros Ht Hty Hq Hp Hn Hqe Hpe Hne.
  unfold calc_loss_task, dict_item, mbind, M_bind, lift, emit. rewrite Ht.
  cbv beta iota zeta. rewrite position_of_idx.
  rewrite bool_decide_eq_true_2 by done.
  rewrite Hq, Hp, Hn.
  rewrite (forward_val_log _ _ _ Hqe), (forward_val_log _ _ _ Hpe),
    (forward_val_log _ _ _ Hne).
  simpl. by destruct (TaskFamily.loss task _).
Qed.

Lemma calc_loss_task_single name batch task x y encoding :
  dict_get (task_dict self) name = Some task →
  TaskFamily.type task = "classification" →
  getitem batch 0 = Ok x →
  getitem batch 1 = Ok y →
  val (forward ext self x (position_of task)) = Ok encoding →
  calc_loss_task ext self name batch =
  ([EvTask name; EvForward x (position_of task); EvEncoder x],
   head_and_loss ext self name task encoding y).
Proof.
  intros Ht Hty Hx Hy He.
  unfold calc_loss_task, dict_item, head_and_loss, mbind, M_bind, lift, emit.
  rewrite Ht. cbv beta iota zeta. rewrite position_of_idx.
  rewrite bool_decide_eq_false_2 by (by intros ?).
  rewrite Hx, Hy, (forward_val_log _ _ _ He). simpl.
  destruct (heads_item self name) as [head|e]; simpl; [|done].
  destruct (head_call ext head encoding) as [logits|e]; simpl; [|done].
  destruct (TaskFamily.loss task [PyTensor logits; y]) as [curr_loss|e]; simpl; [|done].
  destruct (TaskFamily.multi_label task); simpl; [|done].
  by destruct (tmean_dim1 curr_loss).
Qed.

End Iteration.

(** ** The concrete instance, evaluated *)

Lemma demo_init_plain : init Demo.ext 16 false None = ([], Ok Demo.plain).
Proof. reflexivity. Qed.

Lemma demo_init_extended :
  init Demo.ext 16 true None =
  ([EvPrint "Using Control Tokens"; EvAddSpecialTokens ["[B]"]; EvResize 6],
   Ok Demo.extended).
Proof. vm_compute. reflexivity. Qed.

Lemma demo_init_plain' :
  init Demo.ext 16 false (Some Demo.registry') = ([], Ok Demo.plain').
Proof. vm_compute. reflexivity. Qed.

(** ** Dispatch on the task type *)

(** C2 (amended). [calc_loss] dispatches on one test, whether the declared
    type is the string ["classification"].  A task of any other type ([ir],
    [triplet], and equally [multi_label_classification]) takes the three-way
    path: query, positive and negative are encoded one after the other at
    the same position, and the task's loss is applied to the three
    embeddings.  A task of type ["classification"] takes the single-encoding
    path: one encoding, the head, the loss on logits and labels, and the
    mean over labels when its [multi_label] flag is set. *)
Theorem calc_loss_dispatch ext self name batch task :
  dict_get (task_dict self) name = Some task →
  (TaskFamily.type task ≠ "classification" →
   ∀ query pos neg query_emb pos_emb neg_emb,
     getitem2 batch 0 0 = Ok query →
     getitem2 batch 0 1 = Ok pos →
     getitem2 batch 0 2 = Ok neg →
     val (forward ext self query (position_of task)) = Ok query_emb →
     val (forward ext self pos (position_of task)) = Ok pos_emb →
     val (forward ext self neg (position_of task)) = Ok neg_emb →
     calc_loss_task ext self name batch =
     ([EvTask name;
       EvForward query (position_of task); EvEncoder query;
       EvForward pos (position_of task); EvEncoder pos;
       EvForward neg (position_of task); EvEncoder neg],
      TaskFamily.loss task
        [PyTensor query_emb; PyTensor pos_emb; PyTensor neg_emb])) ∧
  (TaskFamily.type task = "classification" →
   ∀ x y encoding,
     getitem batch 0 = Ok x →
     getitem batch 1 = Ok y →
     val (forward ext self x (position_of task)) = Ok encoding →
     calc_loss_task ext self name batch =
     ([EvTask name; EvForward x (position_of task); EvEncoder x],
      head_and_loss ext self name task encoding y)).
Proof.
  intros Ht. split.
  - intros Hty **. by eapply calc_loss_task_three_way.
  - intros Hty **. by eapply calc_loss_task_single.
Qed.

(** The retrieval task of the instance takes the three-way path at position
    1, its classification task the single-encoding path at position 0. *)
Lemma calc_loss_dispatch_witness :
  calc_loss_task Demo.ext Demo.plain "task_b" Demo.batch_b =
  ([EvTask "task_b";
    EvForward (Demo.ids [[1; 3; 2]]%Z 3) 1; EvEncoder (Demo.ids [[1; 3; 2]]%Z 3);
    EvForward (Demo.ids [[1; 3; 3]]%Z 3) 1; EvEncoder (Demo.ids [[1; 3; 3]]%Z 3);
    EvForward (Demo.ids [[1; 4; 4]]%Z 3) 1; EvEncoder (Demo.ids [[1; 4; 4]]%Z 3)],
   Demo.triplet_loss
     [PyTensor (T2 2 [[Fin 3; Fin 1]]); PyTensor (T2 2 [[Fin 3; Fin 1]]);
      PyTensor (T2 2 [[Fin 4; Fin (-1)]])]%Q) ∧
  calc_loss_task Demo.ext Demo.plain "task_a" Demo.batch_a =
  ([EvTask "task_a";
    EvForward (Demo.ids [[1; 3; 2]; [1; 4; 2]]%Z 3) 0;
    EvEncoder (Demo.ids [[1; 3; 2]; [1; 4; 2]]%Z 3)],
   head_and_loss Demo.ext Demo.plain "task_a" Demo.task_a
     (T2 2 [[Fin 1; Fin (1 # 2)]; [Fin 1; Fin (1 # 2)]])%Q
     (PyTensor (T1 [Fin 0; Fin 1]))%Q).
Proof.
  split.
  - apply (proj1 (calc_loss_dispatch Demo.ext Demo.plain "task_b" Demo.batch_b
                    Demo.task_b eq_refl)); [done|reflexivity..].
  - apply (proj2 (calc_loss_dispatch Demo.ext Demo.plain "task_a" Demo.batch_a
                    Demo.task_a eq_refl)); reflexivity.
Defined.

(** Counterexample to C2 as the specification states it: a task registered
    with the type ["multi_label_classification"], a head and an
    [(inputs, labels)] payload is not given one encoding of its inputs.  It
    is sent down the three-way path, which takes the inputs apart by rows and
    runs the encoder on the first row alone; the head is never consulted.
    On a triple payload the same task gets three encodings and its loss is
    applied to three embeddings. *)
Lemma multi_label_classification_type_not_single :
  dict_get (task_dict Demo.plain') "task_m" = Some Demo.task_m ∧
  TaskFamily.type Demo.task_m = "multi_label_classification" ∧
  getitem Demo.batch_m 0 = Ok (Demo.ids [[1; 3; 2]; [1; 4; 2]; [1; 4; 3]]%Z 3) ∧
  calc_loss_task Demo.ext Demo.plain' "task_m" Demo.batch_m =
  ([EvTask "task_m";
    EvForward (PyTensor (T1 [Fin 1; Fin 3; Fin 2]))%Q 0;
    EvEncoder (PyTensor (T1 [Fin 1; Fin 3; Fin 2]))%Q],
   Raise (TypeError "encoder: expected input ids of shape [batch, seq]")) ∧
  calc_loss_task Demo.ext Demo.plain' "task_m" Demo.batch_b =
  ([EvTask "task_m";
    EvForward (Demo.ids [[1; 3; 2]]%Z 3) 0; EvEncoder (Demo.ids [[1; 3; 2]]%Z 3);
    EvForward (Demo.ids [[1; 3; 3]]%Z 3) 0; EvEncoder (Demo.ids [[1; 3; 3]]%Z 3);
    EvForward (Demo.ids [[1; 4; 4]]%Z 3) 0; EvEncoder (Demo.ids [[1; 4; 4]]%Z 3)],
   Demo.per_label_loss
     [PyTensor (T2 2 [[Fin 1; Fin (1 # 2)]]); PyTensor (T2 2 [[Fin 1; Fin (1 # 2)]]);
      PyTensor (T2 2 [[Fin 1; Fin (1 # 2)]])]%Q).
Proof. repeat split; vm_compute; reflexivity. Qed.

(** ** Classification heads *)

Lemma forward_with_heads ext self hs x token_idx :
  forward ext (with_heads self hs) x token_idx = forward ext self x token_idx.
Proof. reflexivity. Qed.

(** An iteration that does not take the single-encoding path never reads
    the head table. *)
Lemma calc_loss_task_no_heads ext self hs name batch :
  (∀ task, dict_get (task_dict self) name = Some task →
           TaskFamily.type task ≠ "classification") →
  calc_loss_task ext (with_heads self hs) name batch =
  calc_loss_task ext self name batch.
Proof.
  intros Hty. unfold calc_loss_task. f_equal.
  simpl. unfold dict_item.
  destruct (dict_get (task_dict self) name) as [task|] eqn:Ht; [|done].
  specialize (Hty task eq_refl).
  unfold mbind, M_bind, lift. cbv beta iota zeta.
  by rewrite !bool_decide_eq_true_2 by done.
Qed.

(** C4 (amended). For a task of type ["classification"], [calc_loss] encodes
    the inputs once and then looks the head up in [self.heads] under the
    task's key: when a head is registered there it is applied to the encoded
    representation and the loss is computed from its logits; when none is
    (the task owns no head) the iteration raises [KeyError].  The head table
    is not read by iterations of other types, so an empty table is tolerated
    by batches without classification tasks. *)
Theorem calc_loss_classification_head ext self name batch task x y encoding :
  dict_get (task_dict self) name = Some task →
  TaskFamily.type task = "classification" →
  getitem batch 0 = Ok x →
  getitem batch 1 = Ok y →
  val (forward ext self x (position_of task)) = Ok encoding →
  log (calc_loss_task ext self name batch) =
    [EvTask name; EvForward x (position_of task); EvEncoder x] ∧
  match heads self !! name with
  | Some head =>
    val (calc_loss_task ext self name batch) =
    rbind (head_call ext head encoding) (λ logits,
    rbind (TaskFamily.loss task [PyTensor logits; y]) (λ curr_loss,
    if TaskFamily.multi_label task then tmean_dim1 curr_loss else Ok curr_loss))
  | None => val (calc_loss_task ext self name batch) = Raise (KeyError name)
  end ∧
  ∀ name' batch',
    (∀ task', dict_get (task_dict self) name' = Some task' →
              TaskFamily.type task' ≠ "classification") →
    calc_loss_task ext (with_heads self ∅) name' batch' =
    calc_loss_task ext self name' batch'.
Proof.
  intros Ht Hty Hx Hy He.
  rewrite (calc_loss_task_single ext self name batch task x y encoding) by done.
  split; [done|]. split.
  - unfold head_and_loss, heads_item. simpl. by destruct (heads self !! name).
  - intros name' batch' Hty'. by apply calc_loss_task_no_heads.
Qed.

Lemma calc_loss_classification_head_witness :
  log (calc_loss_task Demo.ext Demo.plain "task_a" Demo.batch_a) =
    [EvTask "task_a";
     EvForward (Demo.ids [[1; 3; 2]; [1; 4; 2]]%Z 3) 0;
     EvEncoder (Demo.ids [[1; 3; 2]; [1; 4; 2]]%Z 3)] ∧
  val (calc_loss_task Demo.ext Demo.plain "task_a" Demo.batch_a) =
    Ok (T1 [Fin (1 + - 0); Fin (1 + - 1)])%Q.
Proof.
  pose proof (calc_loss_classification_head Demo.ext Demo.plain "task_a"
                Demo.batch_a Demo.task_a _ _ _
                eq_refl eq_refl eq_refl eq_refl eq_refl) as [Hlog [Hval _]].
  split; [exact Hlog|exact Hval].
Defined.

(** Counterexample to C4 as the specification states it: a classification
    task that owns no head does not complete; looking its head up raises
    [KeyError], and so does [calc_loss] on a batch that holds the task. *)
Lemma headless_classification_raises :
  dict_get (task_dict Demo.plain') "task_c" = Some Demo.task_c ∧
  TaskFamily.type Demo.task_c = "classification" ∧
  TaskFamily.head Demo.task_c = None ∧
  val (init Demo.ext 16 false (Some Demo.registry')) = Ok Demo.plain' ∧
  val (calc_loss_task Demo.ext Demo.plain' "task_c" Demo.batch_a) =
    Raise (KeyError "task_c") ∧
  val (calc_loss Demo.ext Demo.plain'
         [("task_a", Demo.batch_a); ("task_c", Demo.batch_a)] 0) =
    Raise (KeyError "task_c").
Proof. repeat split; vm_compute; reflexivity. Qed.

(** ** Multi-label reduction *)

Lemma mean_list_unfold (row : list num) :
  mean_list row = ndiv (nsum row) (length row).
Proof. reflexivity. Qed.

(** C6. For a classification task with [multi_label] set whose loss function
    returns a per-label tensor of shape [[batch, num_labels]], the loss
    tensor of the iteration is the mean along dimension 1: one value per
    example, the sum of the example's per-label losses divided by the number
    of labels. *)
Theorem multi_label_reduction ext self name batch task x y encoding head logits c rows :
  dict_get (task_dict self) name = Some task →
  TaskFamily.type task = "classification" →
  TaskFamily.multi_label task = true →
  getitem batch 0 = Ok x →
  getitem batch 1 = Ok y →
  val (forward ext self x (position_of task)) = Ok encoding →
  heads self !! name = Some head →
  head_call ext head encoding = Ok logits →
  TaskFamily.loss task [PyTensor logits; y] = Ok (T2 c rows) →
  wf_tensor (T2 c rows) →
  ∃ l,
    val (calc_loss_task ext self name batch) = Ok (T1 l) ∧
    length l = length rows ∧
    ∀ b row, rows !! b = Some row →
      length row = c ∧ l !! b = Some (ndiv (nsum row) c).
Proof.
  intros Ht Hty Hml Hx Hy He Hh Hl Hloss Hwf.
  rewrite (calc_loss_task_single ext self name batch task x y encoding) by done.
  unfold head_and_loss, heads_item. simpl. rewrite Hh. simpl.
  rewrite Hl. simpl. rewrite Hloss. simpl. rewrite Hml. simpl.
  eexists. split; [reflexivity|]. split; [by rewrite length_map|].
  intros b row Hb.
  assert (length row = c) as Hc.
  { simpl in Hwf. rewrite Forall_forall in Hwf. apply Hwf.
    by eapply list_elem_of_lookup_2. }
  split; [done|].
  rewrite list_lookup_fmap, Hb. simpl. by rewrite mean_list_unfold, Hc.
Qed.

Lemma multi_label_reduction_witness :
  ∃ l,
    val (calc_loss_task Demo.ext Demo.plain' "task_l" Demo.batch_m) = Ok (T1 l) ∧
    length l = 3%nat ∧
    ∀ b row, [[Fin 1; Fin (1 # 2)]; [Fin 1; Fin (1 # 2)]; [Fin 1; Fin (1 # 2)]]%Q !! b
             = Some row →
      length row = 2%nat ∧ l !! b = Some (ndiv (nsum row) 2).
Proof.
  apply (multi_label_reduction Demo.ext Demo.plain' "task_l" Demo.batch_m
           Demo.task_l _ _ _ Demo.head_a _ 2%nat _
           eq_refl eq_refl eq_refl eq_refl eq_refl eq_refl eq_refl eq_refl eq_refl).
  repeat constructor.
Defined.

(** ** Model construction *)

Section Init.
Variable ext : Externals.

Local Abbreviation store :=
  (λ (r : result (gmap string Head)) (kv : string * Head),
     rbind r (λ m, add_module ext m kv.1 kv.2)).
Local Abbreviation insert_all :=
  (foldl (λ (m : gmap string Head) (kv : string * Head), <[kv.1 := kv.2]> m)).

Lemma add_module_Ok m name module m' :
  add_module ext m name module = Ok m' → m' = <[name := module]> m.
Proof.
  unfold add_module.
  destruct (_ && _); [done|]. destruct (str_in _ _); [done|].
  destruct (bool_decide _); [done|]. by intros [= <-].
Qed.

Lemma add_module_valid m name module :
  valid_module_name ext name →
  add_module ext m name module = Ok (<[name := module]> m).
Proof.
  intros (Ha & Hd & He). unfold add_module. rewrite Ha, Hd.
  rewrite orb_false_l, andb_negb_r.
  by rewrite bool_decide_eq_false_2.
Qed.

(** A name that is stored for the first time has passed every check. *)
Lemma add_module_new m name module m' :
  m !! name = None →
  add_module ext m name module = Ok m' → valid_module_name ext name.
Proof.
  intros Hnew. unfold add_module.
  rewrite (bool_decide_eq_false_2 (is_Some (m !! name)))
    by (rewrite Hnew; by intros [? ?]).
  rewrite orb_false_r, andb_true_r.
  destruct (has_attribute ext name) eqn:Ha; [done|].
  destruct (str_in "." name) eqn:Hd; [done|].
  case_bool_decide as He; [done|]. done.
Qed.

Lemma add_module_KeyError m name module e :
  add_module ext m name module = Raise e → ∃ msg, e = KeyError msg.
Proof.
  unfold add_module.
  destruct (_ && _); [intros [= <-]; eauto|].
  destruct (str_in _ _); [intros [= <-]; eauto|].
  destruct (bool_decide _); [intros [= <-]; eauto|done].
Qed.

Lemma store_raise e d : foldl store (Raise e) d = Raise e.
Proof. by induction d. Qed.

Lemma store_Ok m d m' :
  foldl store (Ok m) d = Ok m' → m' = insert_all m d.
Proof.
  revert m. induction d as [|[k h] d IH]; intros m; cbn [foldl rbind fst snd].
  - by intros [= <-].
  - destruct (add_module ext m k h) as [m1|e] eqn:Hadd.
    + apply add_module_Ok in Hadd as ->. apply IH.
    + by rewrite store_raise.
Qed.

Lemma store_valid m d :
  (∀ k, k ∈ keys d → valid_module_name ext k) →
  foldl store (Ok m) d = Ok (insert_all m d).
Proof.
  revert m. induction d as [|[k h] d IH]; intros m Hv; [done|].
  cbn [foldl rbind fst snd].
  rewrite add_module_valid by (apply Hv; left). apply IH.
  intros k' Hk'. apply Hv. by right.
Qed.

(** Storing succeeds only if every new name is a valid one. *)
Lemma store_Ok_valid m d m' :
  NoDup (keys d) → (∀ k, k ∈ keys d → m !! k = None) →
  foldl store (Ok m) d = Ok m' →
  ∀ k, k ∈ keys d → valid_module_name ext k.
Proof.
  revert m. induction d as [|[k h] d IH]; intros m Hnd Hnew Hok k' Hk'.
  { by apply elem_of_nil in Hk'. }
  cbn [foldl rbind fst snd] in Hok. cbn [keys map fst] in Hnd, Hk'.
  apply NoDup_cons in Hnd as [Hk Hnd].
  destruct (add_module ext m k h) as [m1|e] eqn:Hadd;
    [|by rewrite store_raise in Hok].
  pose proof (add_module_new m k h m1 (Hnew k ltac:(left)) Hadd) as Hvalid.
  apply add_module_Ok in Hadd as ->.
  apply elem_of_cons in Hk' as [->|Hk']; [done|].
  apply (IH _ Hnd) with (k := k') in Hok; [done| |done].
  intros k2 Hk2. rewrite lookup_insert_ne by (by intros ->).
  apply Hnew. by right.
Qed.

Lemma store_KeyError m d e :
  foldl store (Ok m) d = Raise e → ∃ msg, e = KeyError msg.
Proof.
  revert m. induction d as [|[k h] d IH]; intros m; [done|].
  cbn [foldl rbind fst snd].
  destruct (add_module ext m k h) as [m1|e'] eqn:Hadd; [apply IH|].
  rewrite store_raise. intros [= <-]. by eapply add_module_KeyError.
Qed.

Lemma dict_get_dict_set {V} (d : odict V) k v k' :
  dict_get (dict_set d k v) k' =
  if String.eqb k k' then Some v else dict_get d k'.
Proof.
  induction d as [|[k0 v0] d IH]; cbn [dict_set dict_get].
  - by destruct (String.eqb k k').
  - destruct (String.eqb_spec k0 k) as [->|Hne]; cbn [dict_get].
    + by destruct (String.eqb k k').
    + rewrite IH. destruct (String.eqb_spec k0 k') as [->|_]; [|done].
      by destruct (String.eqb_spec k k') as [->|_].
Qed.

Lemma keys_dict_set {V} (d : odict V) k v x :
  x ∈ keys (dict_set d k v) ↔ x = k ∨ x ∈ keys d.
Proof.
  induction d as [|[k0 v0] d IH]; cbn [dict_set keys map fst].
  - rewrite elem_of_cons. by rewrite elem_of_nil.
  - destruct (String.eqb_spec k0 k) as [->|Hne]; cbn [map fst].
    + rewrite !elem_of_cons. tauto.
    + rewrite !elem_of_cons. unfold keys in IH. rewrite IH. tauto.
Qed.

Lemma dict_set_NoDup {V} (d : odict V) k v :
  NoDup (keys d) → NoDup (keys (dict_set d k v)).
Proof.
  induction d as [|[k0 v0] d IH]; cbn [dict_set keys map fst]; intros Hnd.
  - apply NoDup_singleton.
  - apply NoDup_cons in Hnd as [Hk0 Hnd].
    destruct (String.eqb_spec k0 k) as [->|Hne]; cbn [map fst].
    + by apply NoDup_cons.
    + apply NoDup_cons. split; [|by apply IH].
      intros [->|Hin]%(keys_dict_set d k v k0); done.
Qed.

Lemma insert_all_lookup (d : odict Head) (m : gmap string Head) k :
  NoDup (keys d) →
  insert_all m d !! k =
  match dict_get d k with Some v => Some v | None => m !! k end.
Proof.
  revert m. induction d as [|[k0 v0] d IH]; intros m Hnd; [done|].
  cbn [keys map fst] in Hnd. apply NoDup_cons in Hnd as [Hk0 Hnd].
  cbn [foldl dict_get fst snd]. rewrite IH by done.
  destruct (String.eqb_spec k0 k) as [->|Hne].
  - destruct (dict_get d k) as [v|] eqn:Hget; [|by rewrite lookup_insert_eq].
    exfalso. apply Hk0. clear -Hget.
    induction d as [|[k1 v1] d IH]; [done|]. cbn [dict_get] in Hget.
    cbn [keys map fst]. destruct (String.eqb_spec k1 k) as [->|_]; [left|].
    right. by apply IH.
  - destruct (dict_get d k); [done|]. by rewrite lookup_insert_ne.
Qed.

(** The dictionary of the comprehension: unique keys, each the name of a
    task that owns a head, and the entries of [heads_of]. *)
Lemma heads_dict_spec td :
  NoDup (keys (heads_dict td)) ∧
  (∀ k, k ∈ keys (heads_dict td) ↔
        ∃ t, t ∈ values td ∧ is_Some (TaskFamily.head t) ∧ TaskFamily.name t = k) ∧
  (∀ k, heads_of td !! k = dict_get (heads_dict td) k).
Proof.
  unfold heads_dict, heads_of. generalize (values td). clear td. intros l.
  assert (∀ (d : odict Head) (m : gmap string Head),
    NoDup (keys d) → (∀ k, m !! k = dict_get d k) →
    let d' := foldl (λ (d : odict Head) t,
                       match TaskFamily.head t with
                       | Some h => dict_set d (TaskFamily.name t) h
                       | None => d
                       end) d l in
    let m' := foldl (λ (m : gmap string Head) t,
                       match TaskFamily.head t with
                       | Some h => <[TaskFamily.name t := h]> m
                       | None => m
                       end) m l in
    NoDup (keys d') ∧
    (∀ k, k ∈ keys d' ↔ k ∈ keys d ∨
          ∃ t, t ∈ l ∧ is_Some (TaskFamily.head t) ∧ TaskFamily.name t = k) ∧
    (∀ k, m' !! k = dict_get d' k)) as Hgen.
  { induction l as [|t l IH]; intros d m Hnd Hrel; cbn [foldl].
    - split; [done|]. split; [|done]. intros k. split; [by left|].
      intros [?|(t & Ht & _)]; [done|]. by apply elem_of_nil in Ht.
    - destruct (TaskFamily.head t) as [h|] eqn:Hh.
      + destruct (IH (dict_set d (TaskFamily.name t) h)
                     (<[TaskFamily.name t := h]> m)) as (Hnd' & Hkeys & Hrel').
        * by apply dict_set_NoDup.
        * intros k. rewrite dict_get_dict_set.
          destruct (String.eqb_spec (TaskFamily.name t) k) as [->|Hne].
          -- by rewrite lookup_insert_eq.
          -- by rewrite lookup_insert_ne.
        * split; [done|]. split; [|done]. intros k. rewrite Hkeys.
          rewrite keys_dict_set. split.
          -- intros [[->|?]|(t' & Ht' & Hs & Hn)].
             ++ right. exists t. rewrite Hh. split; [left|]. by split.
             ++ by left.
             ++ right. exists t'. split; [by right|]. by split.
          -- intros [?|(t' & [->|Ht']%elem_of_cons & Hs & Hn)].
             ++ left. by right.
             ++ left. by left.
             ++ right. exists t'. by split.
      + destruct (IH d m Hnd Hrel) as (Hnd' & Hkeys & Hrel').
        split; [done|]. split; [|done]. intros k. rewrite Hkeys. split.
        * intros [?|(t' & Ht' & Hs & Hn)]; [by left|].
          right. exists t'. split; [by right|]. by split.
        * intros [?|(t' & [->|Ht']%elem_of_cons & Hs & Hn)]; [by left| |].
          -- rewrite Hh in Hs. by destruct Hs.
          -- right. exists t'. by split. }
  destruct (Hgen [] ∅) as (Hnd & Hkeys & Hrel); [constructor|done|].
  split; [done|]. split; [|done]. intros k. rewrite Hkeys. split.
  - intros [Hk|?]; [|done]. by apply elem_of_nil in Hk.
  - by right.
Qed.

Lemma insert_all_heads_dict td :
  insert_all ∅ (heads_dict td) = heads_of td.
Proof.
  destruct (heads_dict_spec td) as (Hnd & _ & Hrel).
  apply map_eq. intros k. rewrite insert_all_lookup by done.
  rewrite Hrel. by destruct (dict_get _ _).
Qed.

(** What [torch.nn.ModuleDict] makes of the heads, when it accepts them. *)
Lemma ModuleDict_heads_of td hs :
  ModuleDict ext (heads_dict td) = Ok hs → hs = heads_of td.
Proof.
  unfold ModuleDict. intros ->%store_Ok. apply insert_all_heads_dict.
Qed.

Lemma ModuleDict_valid td :
  valid_head_names ext td →
  ModuleDict ext (heads_dict td) = Ok (heads_of td).
Proof.
  intros Hv. unfold ModuleDict. rewrite store_valid.
  - by rewrite insert_all_heads_dict.
  - intros k (t & Ht & Hs & <-)%heads_dict_spec. by apply Hv.
Qed.

Lemma ModuleDict_Ok_valid td hs :
  ModuleDict ext (heads_dict td) = Ok hs → valid_head_names ext td.
Proof.
  intros Hok t Ht Hs.
  destruct (heads_dict_spec td) as (Hnd & Hkeys & _).
  apply (store_Ok_valid ∅ (heads_dict td) hs Hnd); [done|exact Hok|].
  apply Hkeys. by exists t.
Qed.

Lemma init_unfold batch_size flag registry :
  init ext batch_size flag registry =
  match ModuleDict ext (heads_dict (effective_registry ext registry)) with
  | Raise e => ([], Raise e)
  | Ok hs =>
    match extend_vocabulary ext flag (effective_registry ext registry)
            (pretrained_encoder ext) (pretrained_tokenizer ext) with
    | (l, Ok (enc', tok')) =>
      (l, Ok {| task_dict := effective_registry ext registry;
                heads := init_weights ext hs;
                encoder := enc'; tokenizer := tok';
                use_ctrl_tokens := flag; batch_size := batch_size;
                lr := (1 # 1000000)%Q |})
    | (l, Raise e) => (l, Raise e)
    end
  end.
Proof.
  unfold init, effective_registry, pretrained_encoder, pretrained_tokenizer.
  destruct registry as [[|kv d]|]; cbv zeta;
    (destruct (ModuleDict _ _) as [hs|e]; [|done];
     unfold mbind, M_bind, lift; cbv beta iota;
     destruct (extend_vocabulary _ _ _ _ _) as [l [[enc' tok']|e]];
     [simpl; by rewrite app_nil_r|done]).
Qed.

(** The construction, once the head table has been accepted. *)
Lemma init_valid batch_size flag registry :
  valid_head_names ext (effective_registry ext registry) →
  init ext batch_size flag registry =
  match extend_vocabulary ext flag (effective_registry ext registry)
          (pretrained_encoder ext) (pretrained_tokenizer ext) with
  | (l, Ok (enc', tok')) =>
    (l, Ok {| task_dict := effective_registry ext registry;
              heads := init_weights ext (heads_of (effective_registry ext registry));
              encoder := enc'; tokenizer := tok';
              use_ctrl_tokens := flag; batch_size := batch_size;
              lr := (1 # 1000000)%Q |})
  | (l, Raise e) => (l, Raise e)
  end.
Proof. intros Hv. by rewrite init_unfold, ModuleDict_valid. Qed.

(** A construction that succeeded went through the extension with the head
    table of the registry. *)
Lemma init_Ok batch_size flag registry l self :
  init ext batch_size flag registry = (l, Ok self) →
  valid_head_names ext (effective_registry ext registry) ∧
  ∃ enc' tok',
    extend_vocabulary ext flag (effective_registry ext registry)
      (pretrained_encoder ext) (pretrained_tokenizer ext) = (l, Ok (enc', tok')) ∧
    self = {| task_dict := effective_registry ext registry;
              heads := init_weights ext (heads_of (effective_registry ext registry));
              encoder := enc'; tokenizer := tok';
              use_ctrl_tokens := flag; batch_size := batch_size;
              lr := (1 # 1000000)%Q |}.
Proof.
  rewrite init_unfold.
  destruct (ModuleDict _ _) as [hs|e] eqn:Hmd; [|done].
  pose proof (ModuleDict_Ok_valid _ _ Hmd) as Hv.
  apply ModuleDict_heads_of in Hmd as ->.
  destruct (extend_vocabulary _ _ _ _ _) as [l' [[enc' tok']|e]]; [|done].
  intros [= <- <-]. split; [done|]. by exists enc', tok'.
Qed.

Lemma extend_vocabulary_off td enc tok :
  extend_vocabulary ext false td enc tok = ([], Ok (enc, tok)).
Proof. reflexivity. Qed.

Lemma extend_vocabulary_empty flag td enc tok :
  spl_ctrl_tokens td = ∅ →
  extend_vocabulary ext flag td enc tok = ([], Ok (enc, tok)).
Proof.
  intros Hempty. unfold extend_vocabulary. destruct flag; [|done].
  by rewrite bool_decide_eq_false_2 by (by intros ?).
Qed.

Lemma elem_of_ctrl_tokens td tok :
  tok ∈ ctrl_tokens td ↔ control_token_set true td tok.
Proof.
  unfold ctrl_tokens, control_token_set. rewrite list_elem_of_omap. split.
  - intros (t & Ht & Hsome).
    destruct (truthy (TaskFamily.ctrl_token t)) eqn:Htr; [|done].
    split; [done|]. by exists t.
  - intros (_ & t & Ht & Htok & Htr). exists t. split; [done|].
    by rewrite Htr.
Qed.

Lemma spl_ctrl_tokens_empty flag td :
  (∀ t, ¬ control_token_set flag td t) → flag = false ∨ spl_ctrl_tokens td = ∅.
Proof.
  intros Hnone. destruct flag; [right|by left].
  apply set_eq. intros t. unfold spl_ctrl_tokens.
  rewrite elem_of_list_to_set, elem_of_ctrl_tokens. split; [|set_solver].
  intros Ht. by apply Hnone in Ht.
Qed.

Lemma spl_ctrl_tokens_nonempty td t :
  control_token_set true td t → spl_ctrl_tokens td ≠ ∅.
Proof.
  intros Ht%elem_of_ctrl_tokens Hempty.
  apply (not_elem_of_empty (C := gset string) t). rewrite <- Hempty.
  unfold spl_ctrl_tokens. by apply elem_of_list_to_set.
Qed.

Lemma elem_of_new_tokens tok toks t :
  t ∈ new_tokens tok toks ↔ t ∈ toks ∧ t ∉ vocab tok.
Proof.
  unfold new_tokens. rewrite list_elem_of_In, filter_In, <- list_elem_of_In.
  rewrite elem_of_remove_dups, bool_decide_eq_true. done.
Qed.

(** The count of newly added ids: the requested tokens, each once, that the
    vocabulary does not hold. *)
Lemma new_tokens_NoDup tok toks :
  NoDup toks →
  new_tokens tok toks = filter (λ t, t ∉ vocab tok) toks.
Proof.
  intros Hnd. unfold new_tokens.
  assert (remove_dups toks = toks) as ->.
  { induction Hnd as [|x l Hx _ IH]; [done|].
    cbn [remove_dups]. destruct (decide_rel elem_of x l); [done|]. by rewrite IH. }
  induction toks as [|x l IH]; [done|].
  apply NoDup_cons in Hnd as [_ Hnd]. cbn [List.filter].
  case_bool_decide.
  - rewrite filter_cons_True by done. by rewrite IH.
  - rewrite filter_cons_False by (by intros ?). by apply IH.
Qed.

Lemma add_special_tokens_len tok toks :
  tokenizer_len (add_special_tokens tok toks).1 =
  (tokenizer_len tok + (add_special_tokens tok toks).2)%nat.
Proof. unfold tokenizer_len. simpl. by rewrite length_app. Qed.

Lemma add_special_tokens_vocab tok toks t :
  t ∈ toks → t ∈ vocab (add_special_tokens tok toks).1.
Proof.
  intros Ht. simpl. apply elem_of_app.
  destruct (decide (t ∈ vocab tok)); [by left|right].
  by apply elem_of_new_tokens.
Qed.

(** A newly added token gets an id past the old vocabulary. *)
Lemma add_special_tokens_new_id tok toks t :
  t ∈ toks → t ∉ vocab tok →
  ∃ i, vocab (add_special_tokens tok toks).1 !! i = Some t ∧
       (tokenizer_len tok ≤ i < tokenizer_len (add_special_tokens tok toks).1)%nat.
Proof.
  intros Ht Hnew.
  assert (t ∈ new_tokens tok toks) as [j Hj]%list_elem_of_lookup_1
    by by apply elem_of_new_tokens.
  exists (length (vocab tok) + j)%nat. unfold tokenizer_len. simpl. split.
  - by rewrite lookup_app_r, Nat.add_comm, Nat.add_sub by lia.
  - apply lookup_lt_Some in Hj. rewrite length_app. lia.
Qed.

Lemma resize_length enc n :
  length (word_embeddings (resize_token_embeddings (init_row ext) enc n)) = n.
Proof.
  simpl. rewrite length_app, length_take, length_map, length_seq. lia.
Qed.

(** Rows that exist before and after a resize are kept. *)
Lemma resize_lookup enc n i :
  (i < n)%nat → (i < length (word_embeddings enc))%nat →
  word_embeddings (resize_token_embeddings (init_row ext) enc n) !! i =
  word_embeddings enc !! i.
Proof.
  intros Hn Hi. simpl.
  rewrite lookup_app_l by (rewrite length_take; lia).
  by rewrite lookup_take_lt.
Qed.

Lemma assign_last_rows_spec w k c r :
  (0 < k)%nat →
  w !! c = Some r →
  ∃ w', assign_last_rows w k c = Ok w' ∧ length w' = length w ∧
    (∀ i, (length w - k ≤ i < length w)%nat → w' !! i = Some r) ∧
    (∀ i, (i < length w - k)%nat → w' !! i = w !! i).
Proof.
  intros Hk Hc. unfold assign_last_rows. rewrite Hc.
  destruct k as [|k]; [lia|].
  eexists. split; [reflexivity|]. split; [|split].
  - rewrite length_app, length_take, length_replicate. lia.
  - intros i Hi.
    rewrite lookup_app_r by (rewrite length_take; lia).
    apply lookup_replicate_2. rewrite length_take. lia.
  - intros i Hi.
    rewrite lookup_app_l by (rewrite length_take; lia).
    by rewrite lookup_take_lt.
Qed.

Lemma extend_vocabulary_on td enc tok :
  spl_ctrl_tokens td ≠ ∅ →
  let toks := list_set ext (ctrl_tokens td) in
  let tok' := (add_special_tokens tok toks).1 in
  let n := (add_special_tokens tok toks).2 in
  extend_vocabulary ext true td enc tok =
  if (0 <? n)%nat then
    match assign_last_rows
            (word_embeddings
               (resize_token_embeddings (init_row ext) enc (tokenizer_len tok')))
            n (cls_token_id tok') with
    | Ok w =>
      ([EvPrint "Using Control Tokens"; EvAddSpecialTokens toks;
        EvResize (tokenizer_len tok')],
       Ok ({| checkpoint := checkpoint enc; word_embeddings := w |}, tok'))
    | Raise e =>
      ([EvPrint "Using Control Tokens"; EvAddSpecialTokens toks;
        EvResize (tokenizer_len tok')], Raise e)
    end
  else ([EvPrint "Using Control Tokens"; EvAddSpecialTokens toks], Ok (enc, tok')).
Proof.
  intros Hne toks tok' n. unfold extend_vocabulary.
  rewrite bool_decide_eq_true_2 by done.
  fold toks. unfold mbind, M_bind, emit, lift. cbv beta iota zeta.
  change (add_special_tokens tok toks) with (tok', n).
  cbv beta iota. destruct (0 <? n)%nat; [|done].
  by destruct (assign_last_rows _ _ _).
Qed.

End Init.

(** C3. The control token set is that of the specification: the distinct
    control tokens of the registered tasks, empty when conditioning is
    disabled.  For a registry whose heads the module can store and a
    tokenizer whose [cls] id has an embedding row: the construction succeeds;
    when the set is not empty it registers exactly the tokens of the set,
    each once, in one call, as the additional special tokens of the
    tokenizer.  With [n] the count of newly added ids (the tokens of the
    set the vocabulary did not hold): if [n] is positive, the
    token-embedding matrix is resized, once, to the new tokenizer length,
    every newly added row (the ids from the old tokenizer length on) is
    exactly the [cls] row and the rows of the old ids are kept; if [n] is
    zero, nothing is resized and the encoder is the loaded one.  When the
    set is empty nothing is registered or resized. *)
Theorem vocabulary_extension ext batch_size flag registry row :
  let td := effective_registry ext registry in
  let tok := pretrained_tokenizer ext in
  let enc := pretrained_encoder ext in
  set_listing ext →
  valid_head_names ext td →
  (cls_token_id tok < tokenizer_len tok)%nat →
  word_embeddings enc !! cls_token_id tok = Some row →
  ∃ l self,
    init ext batch_size flag registry = (l, Ok self) ∧
    ((∃ t, control_token_set flag td t) →
     ∃ toks n,
       NoDup toks ∧
       (∀ t, t ∈ toks ↔ control_token_set flag td t) ∧
       n = length (filter (λ t, t ∉ vocab tok) toks) ∧
       registrations l = [toks] ∧
       additional_special_tokens (tokenizer self) = toks ∧
       (∀ t, t ∈ toks → t ∈ vocab (tokenizer self)) ∧
       tokenizer_len (tokenizer self) = (tokenizer_len tok + n)%nat ∧
       ((0 < n)%nat →
          resizes l = [tokenizer_len (tokenizer self)] ∧
          length (word_embeddings (encoder self)) = tokenizer_len (tokenizer self) ∧
          word_embeddings (encoder self) !! cls_token_id (tokenizer self) = Some row ∧
          (∀ i, (tokenizer_len tok ≤ i < tokenizer_len (tokenizer self))%nat →
                word_embeddings (encoder self) !! i = Some row) ∧
          (∀ t, t ∈ toks → t ∉ vocab tok →
                ∃ i, vocab (tokenizer self) !! i = Some t ∧
                     word_embeddings (encoder self) !! i = Some row) ∧
          (∀ i, (i < tokenizer_len tok)%nat → (i < length (word_embeddings enc))%nat →
                word_embeddings (encoder self) !! i = word_embeddings enc !! i)) ∧
       (n = 0%nat → resizes l = [] ∧ encoder self = enc)) ∧
    ((∀ t, ¬ control_token_set flag td t) →
       l = [] ∧ tokenizer self = tok ∧ encoder self = enc).
Proof.
  intros td tok enc Hset Hvalid Hcls Hrow.
  rewrite (init_valid ext batch_size flag registry Hvalid). fold td tok enc.
  assert ((∃ t, t ∈ ctrl_tokens td ∧ flag = true) ∨
          ∀ t, ¬ control_token_set flag td t) as [Hsome|Hempty].
  { destruct flag; [|right; by intros t [? _]].
    destruct (ctrl_tokens td) as [|t0 l0] eqn:Hct.
    - right. intros t Ht%elem_of_ctrl_tokens. rewrite Hct in Ht.
      by apply elem_of_nil in Ht.
    - left. exists t0. split; [left|done]. }
  - destruct Hsome as (t0 & Ht0 & ->).
    assert (spl_ctrl_tokens td ≠ ∅) as Hne
      by (eapply spl_ctrl_tokens_nonempty; by apply elem_of_ctrl_tokens).
    set (toks := list_set ext (ctrl_tokens td)).
    destruct (Hset (ctrl_tokens td)) as [Hnd Hmem]. fold toks in Hnd, Hmem.
    set (n := (add_special_tokens tok toks).2).
    set (tok' := (add_special_tokens tok toks).1).
    assert (n = length (filter (λ t, t ∉ vocab tok) toks)) as Hn_eq.
    { unfold n. cbn [add_special_tokens snd]. by rewrite new_tokens_NoDup. }
    assert (tokenizer_len tok' = (tokenizer_len tok + n)%nat) as Hlen
      by apply add_special_tokens_len.
    assert (∀ t, t ∈ toks → t ∈ vocab tok') as Hreg
      by (intros t Ht; by apply add_special_tokens_vocab).
    assert (∀ t, t ∈ toks ↔ control_token_set true td t) as Hspec
      by (intros t; by rewrite Hmem, elem_of_ctrl_tokens).
    rewrite (extend_vocabulary_on ext td enc tok Hne). fold toks tok' n.
    destruct (0 <? n)%nat eqn:Hn.
    + apply Nat.ltb_lt in Hn.
      set (enc' := resize_token_embeddings (init_row ext) enc (tokenizer_len tok')).
      assert (length (word_embeddings enc') = tokenizer_len tok') as Hlen'
        by apply resize_length.
      assert (word_embeddings enc' !! cls_token_id tok' = Some row) as Hrow'.
      { unfold enc'. rewrite resize_lookup; [done|simpl; lia|].
        by apply lookup_lt_Some in Hrow. }
      destruct (assign_last_rows_spec (word_embeddings enc') n (cls_token_id tok')
                  row Hn Hrow') as [w [-> [Hw [Hnew Hold]]]].
      rewrite Hlen' in Hw, Hnew, Hold.
      eexists _, _. split; [reflexivity|]. cbn [tokenizer encoder word_embeddings].
      split; [|intros Hno; by destruct (Hno t0); apply Hspec, Hmem].
      intros _. exists toks, n.
      do 7 (split; [done|]). split; [|lia].
      intros _. split; [done|]. split; [done|]. split.
      { rewrite Hold by (simpl in *; lia). done. }
      split.
      { intros i Hi. apply Hnew. lia. }
      split.
      { intros t Ht Hfresh.
        destruct (add_special_tokens_new_id tok toks t Ht Hfresh)
          as [i [Hi Hrange]].
        exists i. split; [done|]. apply Hnew. fold tok' in Hrange. lia. }
      intros i Hi Hi'. rewrite Hold by lia.
      apply resize_lookup; [lia|done].
    + apply Nat.ltb_ge in Hn.
      eexists _, _. split; [reflexivity|]. cbn [tokenizer encoder].
      split; [|intros Hno; by destruct (Hno t0); apply Hspec, Hmem].
      intros _. exists toks, n.
      do 7 (split; [done|]). split; [lia|done].
  - destruct (spl_ctrl_tokens_empty flag td Hempty) as [->|Hspl].
    + rewrite extend_vocabulary_off.
      eexists _, _. split; [reflexivity|]. split; [|done].
      intros [t Ht]. by destruct (Hempty t).
    + rewrite (extend_vocabulary_empty ext flag td enc tok Hspl).
      eexists _, _. split; [reflexivity|]. split; [|done].
      intros [t Ht]. by destruct (Hempty t).
Qed.

Lemma demo_set_listing : set_listing Demo.ext.
Proof.
  intros l. cbn [list_set Demo.ext]. split.
  - rewrite reverse_Permutation. apply NoDup_remove_dups.
  - intros x. by rewrite elem_of_reverse, elem_of_remove_dups.
Qed.

Lemma demo_valid_head_names : valid_head_names Demo.ext Demo.registry.
Proof.
  intros t Ht _. unfold Demo.registry, values in Ht. cbn [map snd] in Ht.
  rewrite !elem_of_cons in Ht.
  destruct Ht as [->|[->|Ht]]; [by vm_compute|by vm_compute|].
  by apply elem_of_nil in Ht.
Qed.

Lemma vocabulary_extension_witness :
  ∃ l self,
    init Demo.ext 16 true None = (l, Ok self) ∧
    registrations l = [["[B]"]] ∧
    vocab (tokenizer self) = ["[PAD]"; "[CLS]"; "[SEP]"; "a"; "b"; "[B]"] ∧
    resizes l = [6%nat] ∧
    length (word_embeddings (encoder self)) = 6%nat ∧
    word_embeddings (encoder self) !! 5%nat = Some [Fin 1; Fin (1 # 2)]%Q ∧
    word_embeddings (encoder self) !! 1%nat = Some [Fin 1; Fin (1 # 2)]%Q.
Proof.
  assert (cls_token_id (pretrained_tokenizer Demo.ext) <
          tokenizer_len (pretrained_tokenizer Demo.ext))%nat as Hcls.
  { vm_compute. lia. }
  destruct (vocabulary_extension Demo.ext 16 true None [Fin 1; Fin (1 # 2)]%Q
              demo_set_listing demo_valid_head_names Hcls eq_refl)
    as (l & self & Hinit & Hsome & _).
  exists l, self.
  assert (self = Demo.extended ∧
          l = [EvPrint "Using Control Tokens"; EvAddSpecialTokens ["[B]"];
               EvResize 6]) as [-> ->].
  { rewrite demo_init_extended in Hinit. by injection Hinit as <- <-. }
  destruct Hsome as (toks & n & _ & _ & Hn & _ & Htoks & _ & _ & Hpos & _).
  { exists "[B]". split; [done|]. exists Demo.task_b. split; [|done].
    unfold effective_registry, values. cbn. rewrite !elem_of_cons. auto. }
  cbn in Htoks. subst toks.
  destruct Hpos as (Hres & Hlen & Hc & Hnew & _).
  { rewrite Hn. vm_compute. lia. }
  split; [exact Hinit|]. split; [reflexivity|]. split; [reflexivity|].
  split; [exact Hres|]. split; [exact Hlen|].
  split; [|exact Hc]. apply Hnew. vm_compute. lia.
Defined.

(** ** The head table *)

Lemma heads_of_foldl_other (l : list TaskFamily.t) (m : gmap string Head) k :
  (∀ t, t ∈ l → TaskFamily.name t ≠ k) →
  foldl (λ (m : gmap string Head) t,
           match TaskFamily.head t with
           | Some h => <[TaskFamily.name t := h]> m
           | None => m
           end) m l !! k = m !! k.
Proof.
  revert m. induction l as [|t l IH]; intros m Hne; [done|].
  cbn [foldl]. rewrite IH by (intros t' Ht'; apply Hne; by right).
  destruct (TaskFamily.head t); [|done].
  apply lookup_insert_ne, Hne. left.
Qed.

(** In a registry whose tasks have distinct names, [self.heads] holds under
    a task's name the head the task owns, and nothing when it owns none. *)
Lemma heads_of_lookup (td : odict TaskFamily.t) t :
  NoDup (TaskFamily.name <$> values td) →
  t ∈ values td →
  heads_of td !! TaskFamily.name t = TaskFamily.head t.
Proof.
  unfold heads_of. generalize (values td). clear td. intros l Hnd Ht.
  apply list_elem_of_split in Ht as (l1 & l2 & ->).
  rewrite fmap_app, fmap_cons in Hnd.
  apply NoDup_app in Hnd as (_ & Hl1 & [Hl2 _]%NoDup_cons).
  rewrite foldl_app. cbn [foldl].
  rewrite heads_of_foldl_other.
  - destruct (TaskFamily.head t) as [h|]; [by rewrite lookup_insert_eq|].
    rewrite heads_of_foldl_other; [done|].
    intros t' Ht' Heq. apply (Hl1 (TaskFamily.name t)).
    + apply list_elem_of_fmap. by exists t'.
    + left.
  - intros t' Ht' Heq. apply Hl2. apply list_elem_of_fmap. by exists t'.
Qed.

Lemma init_heads ext batch_size flag registry l self :
  init ext batch_size flag registry = (l, Ok self) →
  task_dict self = effective_registry ext registry ∧
  heads self = init_weights ext (heads_of (effective_registry ext registry)) ∧
  use_ctrl_tokens self = flag.
Proof. by intros (_ & enc' & tok' & _ & ->)%init_Ok. Qed.

(** A task of a constructed module that owns no head has no entry in
    [self.heads]. *)
Lemma init_headless ext batch_size flag registry l self t :
  init ext batch_size flag registry = (l, Ok self) →
  NoDup (TaskFamily.name <$> values (task_dict self)) →
  t ∈ values (task_dict self) →
  TaskFamily.head t = None →
  heads self !! TaskFamily.name t = None.
Proof.
  intros (Htd & Hh & _)%init_heads Hnd Ht Hnone.
  rewrite Hh. unfold init_weights. rewrite lookup_fmap.
  rewrite Htd in Hnd, Ht. by rewrite heads_of_lookup, Hnone.
Qed.

(** ** The position does not depend on [use_ctrl_tokens] *)

Lemma load_data_off self split ds :
  use_ctrl_tokens self = false → ds ∈ load_data self split →
  ds_ctrl_token ds = None.
Proof.
  intros Hoff. unfold load_data. rewrite Hoff.
  intros [[t_name task] [-> _]]%list_elem_of_fmap. done.
Qed.

(** C10. Whatever [use_ctrl_tokens] the module was constructed with, every
    position [calc_loss] requests for a task that declares a control token is
    1.  When the flag is off (the driver's setting) the construction logs
    nothing and keeps the loaded tokenizer and encoder, and the datasets are
    built with no control token to insert, so position 1 holds an ordinary
    input token. *)
Theorem position_ignores_use_ctrl_tokens
    ext batch_size flag registry l0 self train_batch batch_idx name i task :
  init ext batch_size flag registry = (l0, Ok self) →
  dict_get (task_dict self) name = Some task →
  truthy (TaskFamily.ctrl_token task) = true →
  (name, i) ∈ requests (log (calc_loss ext self train_batch batch_idx)) →
  i = 1%Z ∧
  (flag = false →
     l0 = [] ∧
     tokenizer self = pretrained_tokenizer ext ∧
     encoder self = pretrained_encoder ext ∧
     ∀ split ds, ds ∈ load_data self split → ds_ctrl_token ds = None).
Proof.
  intros Hinit Ht Hctrl Hreq. split.
  - apply calc_loss_requests in Hreq as [task' [Ht' ->]].
    rewrite Ht in Ht'. injection Ht' as <-.
    unfold position_of. by rewrite Hctrl.
  - intros ->. apply init_Ok in Hinit as (_ & enc' & tok' & Hext & ->).
    rewrite extend_vocabulary_off in Hext. injection Hext as <- <- <-.
    repeat split. intros split ds. by apply load_data_off.
Qed.

Lemma position_ignores_use_ctrl_tokens_witness :
  init Demo.ext 16 false None = ([], Ok Demo.plain) ∧
  requests (log (calc_loss Demo.ext Demo.plain Demo.train_batch 0)) =
    [("task_a", 0%Z); ("task_b", 1%Z); ("task_b", 1%Z); ("task_b", 1%Z)] ∧
  tokenizer Demo.plain = pretrained_tokenizer Demo.ext ∧
  encoder Demo.plain = pretrained_encoder Demo.ext ∧
  ∀ split ds, ds ∈ load_data Demo.plain split → ds_ctrl_token ds = None.
Proof.
  assert (("task_b", 1%Z) ∈
          requests (log (calc_loss Demo.ext Demo.plain Demo.train_batch 0))) as Hreq.
  { by_evaluation. }
  destruct (position_ignores_use_ctrl_tokens Demo.ext 16 false None [] Demo.plain
              Demo.train_batch 0 "task_b" 1 Demo.task_b
              eq_refl eq_refl eq_refl Hreq) as [_ Hoff].
  destruct (Hoff eq_refl) as (_ & Htok & Henc & Hds).
  split; [reflexivity|]. split; [vm_compute; reflexivity|].
  split; [exact Htok|]. split; [exact Henc|exact Hds].
Defined.


(** ** The value of the loss aggregator *)

Lemma dict_set_fresh {V} (d : odict V) k v :
  k ∉ keys d → dict_set d k v = d ++ [(k, v)].
Proof.
  induction d as [|[k' v'] d IH]; simpl; intros Hk; [done|].
  apply not_elem_of_cons in Hk as [Hne Hk].
  destruct (String.eqb_spec k' k) as [->|_]; [done|].
  by rewrite IH.
Qed.

Lemma foldl_dict_set_fresh {V} (d kvs : odict V) :
  NoDup (keys kvs) → (∀ k, k ∈ keys kvs → k ∉ keys d) →
  foldl (λ d kv, dict_set d kv.1 kv.2) d kvs = d ++ kvs.
Proof.
  revert d. induction kvs as [|[k v] kvs IH]; simpl; intros d Hnd Hfresh.
  - by rewrite app_nil_r.
  - apply NoDup_cons in Hnd as [Hk Hnd].
    rewrite dict_set_fresh by (apply Hfresh; left).
    rewrite IH; [by rewrite <- app_assoc|done|].
    intros k' Hk'. unfold keys. rewrite fmap_app. simpl.
    intros [Hin| ->%list_elem_of_singleton]%elem_of_app.
    + by apply (Hfresh k'); [right|].
    + done.
Qed.

Section CalcLossValue.
Variable ext : Externals.
Variable self : PhantasmLight.

Lemma calc_loss_loop_val items losses loss_per_task :
  Forall (iteration_ok ext self) items →
  val (calc_loss_loop ext self items losses loss_per_task) =
  Ok (losses ++ (curr_loss_of ext self <$> items),
      foldl (λ d kv, dict_set d kv.1 kv.2) loss_per_task (entry_of ext self <$> items)).
Proof.
  intros Hok. revert losses loss_per_task.
  induction Hok as [|[name batch] items [t Ht] _ IH]; intros losses loss_per_task.
  - simpl. by rewrite app_nil_r.
  - assert (curr_loss_of ext self (name, batch) = t) as Hc.
    { unfold curr_loss_of. simpl in *. by rewrite Ht. }
    assert (entry_of ext self (name, batch) = (name, tmean t)) as He.
    { unfold entry_of. by rewrite Hc. }
    cbn [calc_loss_loop]. rewrite val_bind. simpl in Ht. rewrite Ht.
    cbn [rbind]. rewrite IH, !fmap_cons, Hc, He. cbn [foldl fst snd].
    by rewrite <- app_assoc.
Qed.

Lemma calc_loss_loop_inv items losses loss_per_task r :
  val (calc_loss_loop ext self items losses loss_per_task) = Ok r →
  Forall (iteration_ok ext self) items.
Proof.
  revert losses loss_per_task.
  induction items as [|[name batch] items IH]; intros losses loss_per_task;
    [constructor|].
  cbn [calc_loss_loop]. rewrite val_bind.
  destruct (val (calc_loss_task ext self name batch)) as [t|e] eqn:Ht; [|done].
  simpl. intros Hr. constructor; [by exists t|by eapply IH].
Qed.

Lemma calc_loss_val train_batch batch_idx :
  val (calc_loss ext self train_batch batch_idx) =
  rbind (val (calc_loss_loop ext self train_batch [] [])) (λ r,
  rbind (tcat r.1) (λ cat, Ok (tmean cat, r.2))).
Proof.
  unfold calc_loss. rewrite val_bind.
  destruct (val (calc_loss_loop ext self train_batch [] [])) as [[losses lpt]|e];
    [|done].
  cbn [rbind]. rewrite val_bind. simpl. by destruct (tcat losses).
Qed.

(** A successful [calc_loss], read off its iterations. *)
Lemma calc_loss_ok train_batch batch_idx loss loss_per_task :
  NoDup (keys train_batch) →
  val (calc_loss ext self train_batch batch_idx) = Ok (loss, loss_per_task) ↔
  Forall (iteration_ok ext self) train_batch ∧
  loss_per_task = entry_of ext self <$> train_batch ∧
  ∃ cat, tcat (curr_loss_of ext self <$> train_batch) = Ok cat ∧ loss = tmean cat.
Proof.
  intros Hnd.
  assert (foldl (λ d kv, dict_set d kv.1 kv.2) [] (entry_of ext self <$> train_batch)
          = entry_of ext self <$> train_batch) as Hfold.
  { apply (foldl_dict_set_fresh []).
    - unfold keys, entry_of. by rewrite <- list_fmap_compose.
    - intros k _ []%elem_of_nil. }
  rewrite calc_loss_val. split.
  - intros Hval.
    assert (Forall (iteration_ok ext self) train_batch) as Hok.
    { destruct (val (calc_loss_loop ext self train_batch [] [])) eqn:E; [|done].
      by eapply calc_loss_loop_inv. }
    rewrite calc_loss_loop_val in Hval by done. simpl in Hval.
    rewrite Hfold in Hval.
    destruct (tcat (curr_loss_of ext self <$> train_batch)) as [cat|e]; [|done].
    simpl in Hval. injection Hval as <- <-. eauto.
  - intros (Hok & -> & cat & Hcat & ->).
    rewrite calc_loss_loop_val by done. simpl. rewrite Hcat. simpl.
    by rewrite Hfold.
Qed.

End CalcLossValue.

(** ** Concatenation and means *)

Lemma forallb_Forall {A} (f : A → bool) (l : list A) :
  forallb f l = true ↔ Forall (λ x, f x = true) l.
Proof.
  rewrite forallb_forall, Forall_forall.
  split; intros H x Hx; apply H; by apply list_elem_of_In.
Qed.

Lemma existsb_false_Forall {A} (f : A → bool) (l : list A) :
  existsb f l = false ↔ Forall (λ x, f x = false) l.
Proof.
  induction l as [|x l IH]; simpl.
  - split; [constructor|done].
  - rewrite orb_false_iff, IH, Forall_cons. done.
Qed.

Lemma elem_of_kept ts t :
  t ∈ kept ts ↔ t ∈ ts ∧ skipped_by_cat t = false.
Proof.
  unfold kept. rewrite list_elem_of_In, filter_In, <- list_elem_of_In.
  by rewrite negb_true_iff.
Qed.

Lemma tcat_ok_iff ts t :
  tcat ts = Ok t ↔
  ts ≠ [] ∧ Forall (λ x, is_T0 x = false) ts ∧
  ((Forall (λ x, is_T1 x = true) (kept ts) ∧
    t = T1 (concat (elems <$> kept ts))) ∨
   (∃ c, kept ts ≠ [] ∧ Forall (λ x, is_T2 c x = true) (kept ts) ∧
         t = T2 c (concat (rows_of <$> kept ts)))).
Proof.
  destruct ts as [|t0 ts0].
  { split; [done|]. by intros [? _]. }
  unfold tcat. cbv beta iota zeta. fold (kept (t0 :: ts0)).
  assert (t0 :: ts0 ≠ []) as Hne by done.
  revert Hne. generalize (t0 :: ts0). clear. intros ts Hne.
  destruct (existsb is_T0 ts) eqn:Hz.
  { split; [done|]. intros (_ & Hno & _).
    apply existsb_false_Forall in Hno. congruence. }
  apply existsb_false_Forall in Hz.
  destruct (kept ts) as [|k ks] eqn:Hk.
  { split.
    - intros [= <-]. split; [done|]. split; [done|]. left. by split.
    - intros (_ & _ & [[_ ->]|(c & Hne' & _)]); done. }
  destruct k as [x|xs|c rows].
  - exfalso. rewrite Forall_forall in Hz.
    assert (T0 x ∈ ts) as Hin.
    { apply (elem_of_kept ts). rewrite Hk. left. }
    by specialize (Hz _ Hin).
  - destruct (forallb is_T1 (T1 xs :: ks)) eqn:Hall.
    + apply forallb_Forall in Hall. split.
      * intros [= <-]. split; [done|]. split; [done|]. left. by split.
      * intros (_ & _ & [[_ ->]|(c & _ & Hc & _)]); [done|].
        by apply Forall_cons in Hc as [? _].
    + split; [done|]. intros (_ & _ & [[Hc _]|(c & _ & Hc & _)]).
      * apply forallb_Forall in Hc. congruence.
      * by apply Forall_cons in Hc as [? _].
  - destruct (forallb (is_T2 c) (T2 c rows :: ks)) eqn:Hall.
    + apply forallb_Forall in Hall. split.
      * intros [= <-]. split; [done|]. split; [done|]. right.
        exists c. by repeat split.
      * intros (_ & _ & [[Hc _]|(c' & _ & Hc & ->)]).
        { by apply Forall_cons in Hc as [? _]. }
        apply Forall_cons in Hc as [Hc _]. simpl in Hc.
        apply Nat.eqb_eq in Hc. by subst.
    + split; [done|]. intros (_ & _ & [[Hc _]|(c' & _ & Hc & _)]).
      * by apply Forall_cons in Hc as [? _].
      * assert (c' = c) as ->.
        { apply Forall_cons in Hc as [Hc _]. simpl in Hc.
          by apply Nat.eqb_eq in Hc. }
        apply forallb_Forall in Hc. congruence.
Qed.

Lemma kept_cons t ts :
  kept (t :: ts) = if skipped_by_cat t then kept ts else t :: kept ts.
Proof. unfold kept. simpl. by destruct (skipped_by_cat t). Qed.

Lemma kept_T1 (ls : list (list num)) :
  concat (elems <$> kept (T1 <$> ls)) = concat ls.
Proof.
  induction ls as [|l ls IH]; [done|].
  rewrite fmap_cons, kept_cons. destruct l as [|x l].
  - change (skipped_by_cat (T1 [])) with true. cbv iota. by rewrite IH.
  - change (skipped_by_cat (T1 (x :: l))) with false. cbv iota.
    rewrite fmap_cons. cbn [concat]. by rewrite IH.
Qed.

Lemma kept_T1_Forall (ls : list (list num)) :
  Forall (λ x, is_T1 x = true) (kept (T1 <$> ls)).
Proof.
  apply Forall_forall. intros t [Ht _]%elem_of_kept.
  by apply list_elem_of_fmap in Ht as [l [-> _]].
Qed.

(** Concatenating per-example vectors. *)
Lemma tcat_T1 (ls : list (list num)) :
  ls ≠ [] → tcat (T1 <$> ls) = Ok (T1 (concat ls)).
Proof.
  intros Hne. apply tcat_ok_iff. split; [by destruct ls|]. split.
  - apply Forall_forall. by intros t [l [-> _]]%list_elem_of_fmap.
  - left. split; [apply kept_T1_Forall|]. by rewrite kept_T1.
Qed.

(** ** The aggregate loss *)

Section Aggregate.
Variable ext : Externals.
Variable self : PhantasmLight.

Lemma task_losses_val name batch l :
  task_losses ext self name batch l →
  val (calc_loss_task ext self name batch) = Ok (T1 l).
Proof.
  intros [task query pos neg qe pe ne l' Ht Hty Hq Hp Hn Hqe Hpe Hne Hloss
         |task x y encoding head logits l' Ht Hty Hml Hx Hy He Hh Hl Hloss
         |task x y encoding head logits c rows Ht Hty Hml Hx Hy He Hh Hl Hloss].
  - by rewrite (calc_loss_task_three_way ext self name batch task
                  query pos neg qe pe ne).
  - rewrite (calc_loss_task_single ext self name batch task x y encoding) by done.
    unfold head_and_loss, heads_item. simpl.
    by rewrite Hh, Hml; simpl; rewrite Hl; simpl; rewrite Hloss.
  - rewrite (calc_loss_task_single ext self name batch task x y encoding) by done.
    unfold head_and_loss, heads_item. simpl.
    by rewrite Hh, Hml; simpl; rewrite Hl; simpl; rewrite Hloss.
Qed.

Lemma task_losses_items (train_batch : odict pyval) (ls : list (list num)) :
  Forall2 (λ item l, task_losses ext self item.1 item.2 l) train_batch ls →
  Forall (iteration_ok ext self) train_batch ∧
  curr_loss_of ext self <$> train_batch = T1 <$> ls ∧
  entry_of ext self <$> train_batch = zip (keys train_batch) (mean_list <$> ls).
Proof.
  induction 1 as [|[name batch] l items ls Hrun _ (IH1 & IH2 & IH3)]; [done|].
  apply task_losses_val in Hrun. simpl in Hrun.
  assert (curr_loss_of ext self (name, batch) = T1 l) as Hc.
  { unfold curr_loss_of. simpl. by rewrite Hrun. }
  split; [|split].
  - constructor; [by exists (T1 l)|done].
  - by rewrite !fmap_cons, Hc, IH2.
  - rewrite !fmap_cons, IH3. unfold entry_of at 1. by rewrite Hc.
Qed.

End Aggregate.

(** C1. On a batch of well-formed tasks, [calc_loss] returns as step loss the
    mean over the concatenation of the tasks' per-example losses, and as
    per-task mapping, for each task of the batch in order, the mean of that
    task's per-example losses (for a multi-label task: of its label-reduced
    losses). *)
Theorem calc_loss_aggregate ext self train_batch batch_idx ls :
  train_batch ≠ [] →
  NoDup (keys train_batch) →
  Forall2 (λ item l, task_losses ext self item.1 item.2 l) train_batch ls →
  val (calc_loss ext self train_batch batch_idx) =
  Ok (mean_list (concat ls), zip (keys train_batch) (mean_list <$> ls)).
Proof.
  intros Hne Hnd Hruns.
  destruct (task_losses_items ext self train_batch ls Hruns) as (Hok & Hc & He).
  apply calc_loss_ok; [done|]. split; [done|]. split; [done|].
  exists (T1 (concat ls)). split; [|done].
  rewrite Hc. apply tcat_T1. intros ->.
  apply Forall2_nil_inv_r in Hruns. done.
Qed.

Lemma calc_loss_aggregate_witness :
  val (calc_loss Demo.ext Demo.plain Demo.train_batch 0) =
  Ok (mean_list [Fin (1 + - 0); Fin (1 + - 1); Fin (3 + - 3 + 4)]%Q,
      [("task_a", mean_list [Fin (1 + - 0); Fin (1 + - 1)]%Q);
       ("task_b", mean_list [Fin (3 + - 3 + 4)]%Q)]).
Proof.
  apply (calc_loss_aggregate Demo.ext Demo.plain Demo.train_batch 0
           [[Fin (1 + - 0); Fin (1 + - 1)]; [Fin (3 + - 3 + 4)]]%Q).
  - done.
  - by_evaluation.
  - constructor; [|constructor; [|constructor]].
    + by eapply (losses_single Demo.ext Demo.plain "task_a" Demo.batch_a
                   Demo.task_a).
    + by eapply (losses_three_way Demo.ext Demo.plain "task_b" Demo.batch_b
                   Demo.task_b).
Defined.

(** The step loss is not the mean of the per-task means: two examples of
    one task and one of the other weigh 2 to 1. *)
Lemma aggregate_not_mean_of_means :
  mean_list [Fin (1 + - 0); Fin (1 + - 1); Fin (3 + - 3 + 4)]%Q =n= Fin (5 # 3) ∧
  mean_list [mean_list [Fin (1 + - 0); Fin (1 + - 1)]%Q;
             mean_list [Fin (3 + - 3 + 4)]%Q] =n= Fin (9 # 4).
Proof. split; vm_compute; reflexivity. Qed.

(** ** Order of the tasks *)

Lemma num_eq_refl a : a =n= a.
Proof. destruct a; simpl; [reflexivity|done]. Qed.

Lemma num_eq_sym a b : a =n= b → b =n= a.
Proof. destruct a, b; simpl; try done; intros ->; reflexivity. Qed.

Lemma num_eq_trans a b c : a =n= b → b =n= c → a =n= c.
Proof. destruct a, b, c; simpl; try done; intros -> ->; reflexivity. Qed.

Lemma nadd_proper a a' b b' : a =n= a' → b =n= b' → nadd a b =n= nadd a' b'.
Proof. destruct a, a', b, b'; simpl; try done; intros -> ->; reflexivity. Qed.

Lemma nadd_swap a b c : nadd a (nadd b c) =n= nadd b (nadd a c).
Proof. destruct a, b, c; simpl; try done; ring. Qed.

Lemma ndiv_proper a a' n : a =n= a' → ndiv a n =n= ndiv a' n.
Proof. destruct a, a', n; simpl; try done; intros ->; reflexivity. Qed.

Lemma nsum_perm l l' : l ≡ₚ l' → nsum l =n= nsum l'.
Proof.
  induction 1 as [|x l l' _ IH|x y l|l l' l'' _ IH1 _ IH2];
    unfold nsum in *; cbn [foldr].
  - apply num_eq_refl.
  - apply nadd_proper; [apply num_eq_refl|done].
  - apply nadd_swap.
  - by eapply num_eq_trans.
Qed.

(** The mean does not depend on the order of the elements. *)
Lemma mean_list_perm l l' : l ≡ₚ l' → mean_list l =n= mean_list l'.
Proof.
  intros Hp. unfold mean_list. rewrite (Permutation_length Hp).
  by apply ndiv_proper, nsum_perm.
Qed.

Lemma nsum_fin l :
  Forall (λ x, is_fin x = true) l → is_fin (nsum l) = true.
Proof.
  induction 1 as [|x l Hx _ IH]; [done|]. simpl.
  by destruct x, (nsum l).
Qed.

(** A mean of finitely many finite values, at least one, is finite. *)
Lemma mean_list_fin l :
  l ≠ [] → Forall (λ x, is_fin x = true) l → is_fin (mean_list l) = true.
Proof.
  intros Hne Hfin%nsum_fin. unfold mean_list.
  destruct l; [done|]. simpl length. by destruct (nsum _).
Qed.

Lemma concat_perm {A} (ls ls' : list (list A)) :
  ls ≡ₚ ls' → concat ls ≡ₚ concat ls'.
Proof.
  induction 1 as [|x l l' _ IH|x y l|l l' l'' _ IH1 _ IH2]; simpl.
  - done.
  - by rewrite IH.
  - rewrite !app_assoc. by rewrite (Permutation_app_comm y x).
  - by etrans.
Qed.

Lemma kept_perm ts us : ts ≡ₚ us → kept ts ≡ₚ kept us.
Proof.
  induction 1 as [|x l l' _ IH|x y l|l l' l'' _ IH1 _ IH2].
  - done.
  - rewrite !kept_cons. destruct (skipped_by_cat x); [done|by constructor].
  - rewrite !kept_cons.
    destruct (skipped_by_cat x), (skipped_by_cat y); try done. constructor.
  - by etrans.
Qed.

Lemma kept_elems ts : concat (elems <$> kept ts) = concat (elems <$> ts).
Proof.
  induction ts as [|t ts IH]; [done|].
  rewrite kept_cons, fmap_cons. cbn [concat].
  destruct t as [x|[|x xs]|c rows];
    first [ change (skipped_by_cat _) with true | change (skipped_by_cat _) with false ];
    cbv iota; rewrite ?fmap_cons; cbn [concat]; by rewrite IH.
Qed.

Lemma concat_rows_of ks c :
  Forall (λ x, is_T2 c x = true) ks →
  concat (concat (rows_of <$> ks)) = concat (elems <$> ks).
Proof.
  induction 1 as [|k ks Hk _ IH]; [done|].
  rewrite !fmap_cons. cbn [concat]. rewrite concat_app, IH.
  by destruct k.
Qed.

(** What [torch.cat] returns holds the elements of its arguments, in order. *)
Lemma tcat_elems ts t : tcat ts = Ok t → elems t = concat (elems <$> ts).
Proof.
  intros (_ & _ & [[_ ->]|(c & _ & Hc & ->)])%tcat_ok_iff.
  - simpl. apply kept_elems.
  - simpl. by rewrite (concat_rows_of _ c), kept_elems.
Qed.

(** Whether [torch.cat] accepts a list does not depend on its order. *)
Lemma tcat_perm ts us t :
  ts ≡ₚ us → tcat ts = Ok t → ∃ u, tcat us = Ok u.
Proof.
  intros Hp (Hne & Hz & Hshape)%tcat_ok_iff.
  assert (us ≠ []) as Hne'.
  { intros ->. by apply Permutation_nil_r in Hp. }
  assert (Forall (λ x, is_T0 x = false) us) as Hz' by by rewrite <- Hp.
  pose proof (kept_perm ts us Hp) as Hk.
  destruct Hshape as [[Hall _]|(c & Hkne & Hall & _)].
  - eexists. apply tcat_ok_iff. split; [done|]. split; [done|].
    left. split; [by rewrite <- Hk|reflexivity].
  - eexists. apply tcat_ok_iff. split; [done|]. split; [done|].
    right. exists c. split; [|split; [by rewrite <- Hk|reflexivity]].
    intros Hnil. rewrite Hnil in Hk. by apply Permutation_nil_r in Hk.
Qed.

(** C5. A batch whose per-example losses are all finite and on which
    [calc_loss] succeeds gives, with its tasks in any other order, a
    successful [calc_loss] with the same step loss as a number (and the same
    per-task entries); that loss is a finite number unless the batch holds no
    example at all. *)
Theorem calc_loss_order_independent ext self b1 b2 batch_idx loss1 per_task1 :
  NoDup (keys b1) →
  b1 ≡ₚ b2 →
  (∀ item t, item ∈ b1 →
     val (calc_loss_task ext self item.1 item.2) = Ok t →
     Forall (λ x, is_fin x = true) (elems t)) →
  val (calc_loss ext self b1 batch_idx) = Ok (loss1, per_task1) →
  ∃ loss2 per_task2,
    val (calc_loss ext self b2 batch_idx) = Ok (loss2, per_task2) ∧
    loss1 =n= loss2 ∧
    per_task1 ≡ₚ per_task2 ∧
    (is_fin loss1 = true ∨
     concat (elems <$> (curr_loss_of ext self <$> b1)) = []).
Proof.
  intros Hnd Hp Hfin (Hok & -> & cat1 & Hcat1 & ->)%calc_loss_ok; [|done].
  assert (NoDup (keys b2)) as Hnd2 by (unfold keys; by rewrite <- Hp).
  assert (Forall (iteration_ok ext self) b2) as Hok2 by by rewrite <- Hp.
  assert (curr_loss_of ext self <$> b1 ≡ₚ curr_loss_of ext self <$> b2) as Hts
    by by rewrite Hp.
  destruct (tcat_perm _ _ _ Hts Hcat1) as [cat2 Hcat2].
  exists (tmean cat2), (entry_of ext self <$> b2).
  split; [|split; [|split]].
  - apply calc_loss_ok; [done|]. eauto.
  - unfold tmean. rewrite (tcat_elems _ _ Hcat1), (tcat_elems _ _ Hcat2).
    apply mean_list_perm, concat_perm. by rewrite Hts.
  - by rewrite Hp.
  - unfold tmean. rewrite (tcat_elems _ _ Hcat1).
    destruct (concat (elems <$> (curr_loss_of ext self <$> b1))) as [|x xs] eqn:Hc;
      [by right|left].
    rewrite <- Hc. apply mean_list_fin; [by rewrite Hc|].
    apply Forall_concat, Forall_fmap, Forall_fmap, Forall_forall.
    intros item Hitem. simpl.
    rewrite Forall_forall in Hok. destruct (Hok item Hitem) as [t Ht].
    unfold curr_loss_of. rewrite Ht. by eapply Hfin.
Qed.

Lemma calc_loss_order_independent_witness :
  ∃ loss2 per_task2,
    val (calc_loss Demo.ext Demo.plain
           [("task_b", Demo.batch_b); ("task_a", Demo.batch_a)] 0) =
      Ok (loss2, per_task2) ∧
    Fin (5 # 3) =n= loss2 ∧
    [("task_a", Fin (1 # 2)); ("task_b", Fin 4)] ≡ₚ per_task2 ∧
    (is_fin (Fin (5 # 3)) = true ∨
     concat (elems <$> (curr_loss_of Demo.ext Demo.plain <$> Demo.train_batch)) = []).
Proof.
  apply (calc_loss_order_independent Demo.ext Demo.plain Demo.train_batch
           [("task_b", Demo.batch_b); ("task_a", Demo.batch_a)] 0).
  - by_evaluation.
  - apply perm_swap.
  - intros item t Hitem.
    apply elem_of_cons in Hitem as [->|Hitem];
      [|apply elem_of_cons in Hitem as [->|Hitem];
        [|by apply elem_of_nil in Hitem]];
      intros [= <-]; repeat constructor.
  - vm_compute. reflexivity.
Defined.

(** ** Edges of the loss aggregator and of the extension *)

(** X1. A batch with no task makes [calc_loss] raise: [torch.cat] is given an
    empty list. *)
Lemma calc_loss_empty_batch ext self batch_idx :
  calc_loss ext self [] batch_idx =
  ([], Raise (RuntimeError "torch.cat(): expected a non-empty list of Tensors")).
Proof. reflexivity. Qed.

(** X3. A batch key that is not in the registry ends the iteration with
    [KeyError] before any encoding. *)
Lemma calc_loss_task_unregistered ext self name batch :
  dict_get (task_dict self) name = None →
  calc_loss_task ext self name batch = ([EvTask name], Raise (KeyError name)).
Proof.
  intros Hnone. unfold calc_loss_task, dict_item. by rewrite Hnone.
Qed.

Lemma calc_loss_task_unregistered_witness :
  calc_loss_task Demo.ext Demo.plain "task_z" Demo.batch_a =
  ([EvTask "task_z"], Raise (KeyError "task_z")).
Proof. by apply calc_loss_task_unregistered. Defined.

Lemma new_tokens_registered tok toks :
  new_tokens (add_special_tokens tok toks).1 toks = [].
Proof.
  destruct (new_tokens _ toks) as [|t l] eqn:E; [done|].
  assert (t ∈ new_tokens (add_special_tokens tok toks).1 toks) as Ht
    by (rewrite E; left).
  apply elem_of_new_tokens in Ht as [Ht Hnew].
  by apply add_special_tokens_vocab with (tok := tok) in Ht.
Qed.

Lemma add_special_tokens_again tok toks :
  add_special_tokens (add_special_tokens tok toks).1 toks =
  ((add_special_tokens tok toks).1, 0%nat).
Proof.
  unfold add_special_tokens at 1. rewrite new_tokens_registered.
  simpl. by rewrite app_nil_r.
Qed.

(** X2. Extending the vocabulary a second time with the same registry adds no
    token, resizes nothing and leaves the encoder and the tokenizer as the
    first extension made them. *)
Lemma extend_vocabulary_idempotent ext flag td enc tok l enc' tok' :
  extend_vocabulary ext flag td enc tok = (l, Ok (enc', tok')) →
  ∃ l', extend_vocabulary ext flag td enc' tok' = (l', Ok (enc', tok')) ∧
        resizes l' = [].
Proof.
  destruct flag; [|intros [= <- <- <-]; by exists []].
  destruct (decide (spl_ctrl_tokens td = ∅)) as [Hempty|Hne].
  { unfold extend_vocabulary. rewrite bool_decide_eq_false_2 by (by intros ?).
    intros [= <- <- <-]. by exists []. }
  rewrite (extend_vocabulary_on ext td enc tok Hne). cbv zeta.
  intros Hfirst.
  assert (tok' = (add_special_tokens tok (list_set ext (ctrl_tokens td))).1) as ->.
  { destruct (0 <? _)%nat; [|by injection Hfirst].
    destruct (assign_last_rows _ _ _); [by injection Hfirst|done]. }
  rewrite (extend_vocabulary_on ext td enc' _ Hne). cbv zeta.
  rewrite add_special_tokens_again. simpl. eauto.
Qed.

Lemma extend_vocabulary_idempotent_witness :
  ∃ l', extend_vocabulary Demo.ext true Demo.registry
          (encoder Demo.extended) (tokenizer Demo.extended) =
        (l', Ok (encoder Demo.extended, tokenizer Demo.extended)) ∧
        resizes l' = [].
Proof.
  apply (extend_vocabulary_idempotent Demo.ext true Demo.registry
           Demo.enc0 Demo.tok0
           [EvPrint "Using Control Tokens"; EvAddSpecialTokens ["[B]"]; EvResize 6]).
  vm_compute. reflexivity.
Defined.

(** * Further properties of the code *)

(** ** The encoder adapter at its bounds *)

Lemma forward_out_of_range_witness :
  val (forward Demo.ext Demo.plain (Demo.ids [[1; 3; 2]; [1; 4; 2]]%Z 3) 3) =
  Raise (IndexError "index out of bounds for dimension 1").
Proof.
  apply (forward_out_of_range Demo.ext Demo.plain _ 3
           {| seq_len := 3; hidden_size := 2;
              last_hidden_state :=
                [[[Fin 1; Fin (1 # 2)]; [Fin 3; Fin 1]; [Fin 2; Fin 0]];
                 [[Fin 1; Fin (1 # 2)]; [Fin 4; Fin (-1)]; [Fin 2; Fin 0]]]%Q |}).
  - reflexivity.
  - right. simpl. lia.
Defined.

(** X5. A negative [token_idx] counts from the end of the sequence: for
    [-seq_len <= token_idx < 0], [forward] returns, for every example, the
    hidden-state vector at position [token_idx + seq_len]. *)
Theorem forward_negative_position ext self x token_idx h :
  encoder_call ext (encoder self) x = Ok h →
  wf_hidden h →
  (- Z.of_nat (seq_len h) ≤ token_idx < 0)%Z →
  ∃ rows,
    val (forward ext self x token_idx) = Ok (T2 (hidden_size h) rows) ∧
    length rows = length (last_hidden_state h) ∧
    ∀ b ex, last_hidden_state h !! b = Some ex →
      ∃ v, ex !! Z.to_nat (token_idx + Z.of_nat (seq_len h)) = Some v ∧
           rows !! b = Some v.
Proof.
  intros Hh Hwf Hi. rewrite forward_unfold. simpl. rewrite Hh. simpl.
  unfold select_token. rewrite norm_index_neg by done.
  eexists. split; [reflexivity|]. split; [by rewrite length_map|].
  intros b ex Hb.
  assert (length ex = seq_len h) as Hlen.
  { unfold wf_hidden in Hwf. rewrite Forall_forall in Hwf.
    apply Hwf. by eapply list_elem_of_lookup_2. }
  destruct (lookup_lt_is_Some_2 ex (Z.to_nat (token_idx + Z.of_nat (seq_len h))))
    as [v Hv]; [lia|].
  exists v. split; [done|].
  rewrite list_lookup_fmap, Hb. simpl. f_equal.
  by apply nth_lookup_Some with (d := []) in Hv.
Qed.

Lemma forward_negative_position_witness :
  ∃ rows,
    val (forward Demo.ext Demo.plain (Demo.ids [[1; 3; 2]; [1; 4; 2]]%Z 3) (-1)) =
      Ok (T2 2 rows) ∧
    length rows = 2%nat ∧
    ∀ b ex,
      [[[Fin 1; Fin (1 # 2)]; [Fin 3; Fin 1]; [Fin 2; Fin 0]];
       [[Fin 1; Fin (1 # 2)]; [Fin 4; Fin (-1)]; [Fin 2; Fin 0]]]%Q !! b = Some ex →
      ∃ v, ex !! 2%nat = Some v ∧ rows !! b = Some v.
Proof.
  apply (forward_negative_position Demo.ext Demo.plain
           (Demo.ids [[1; 3; 2]; [1; 4; 2]]%Z 3) (-1)
           {| seq_len := 3; hidden_size := 2;
              last_hidden_state :=
                [[[Fin 1; Fin (1 # 2)]; [Fin 3; Fin 1]; [Fin 2; Fin 0]];
                 [[Fin 1; Fin (1 # 2)]; [Fin 4; Fin (-1)]; [Fin 2; Fin 0]]]%Q |}).
  - reflexivity.
  - repeat constructor.
  - simpl. lia.
Defined.

(** ** Failures inside [calc_loss] *)

Section Failures.
Variable ext : Externals.
Variable self : PhantasmLight.

(** The events of the iterations of a list of items, one after the other. *)
Lemma calc_loss_loop_ok_log items losses loss_per_task :
  Forall (iteration_ok ext self) items →
  log (calc_loss_loop ext self items losses loss_per_task) =
  concat (map (λ item, log (calc_loss_task ext self item.1 item.2)) items).
Proof.
  intros Hok. revert losses loss_per_task.
  induction Hok as [|[name batch] items [t Ht] _ IH]; intros losses loss_per_task;
    [done|].
  cbn [calc_loss_loop]. rewrite log_bind. simpl in Ht. rewrite Ht.
  by rewrite IH.
Qed.

Lemma calc_loss_loop_fail_fast pre name batch post losses loss_per_task e :
  Forall (iteration_ok ext self) pre →
  val (calc_loss_task ext self name batch) = Raise e →
  calc_loss_loop ext self (pre ++ (name, batch) :: post) losses loss_per_task =
  (concat (map (λ item, log (calc_loss_task ext self item.1 item.2)) pre) ++
   log (calc_loss_task ext self name batch), Raise e).
Proof.
  intros Hok Hfail. revert losses loss_per_task.
  induction Hok as [|[n b] pre [t Ht] _ IH]; intros losses loss_per_task.
  - cbn [app calc_loss_loop map concat].
    rewrite (M_eta (_ ≫= _)), log_bind, val_bind, Hfail. done.
  - cbn [app calc_loss_loop map concat]. simpl in Ht.
    rewrite (M_eta (_ ≫= _)), log_bind, val_bind, Ht. cbn [rbind].
    rewrite IH. simpl. by rewrite app_assoc.
Qed.

End Failures.

(** X6. [calc_loss] stops at the first task whose iteration raises: it
    raises that exception, its events are those of the tasks before it and
    of the failing iteration, and no task after it is encoded. *)
Theorem calc_loss_fail_fast ext self pre name batch post batch_idx e :
  Forall (iteration_ok ext self) pre →
  val (calc_loss_task ext self name batch) = Raise e →
  calc_loss ext self (pre ++ (name, batch) :: post) batch_idx =
  (concat (map (λ item, log (calc_loss_task ext self item.1 item.2)) pre) ++
   log (calc_loss_task ext self name batch), Raise e).
Proof.
  intros Hok Hfail. unfold calc_loss.
  by rewrite (calc_loss_loop_fail_fast ext self pre name batch post [] [] e).
Qed.

Lemma calc_loss_fail_fast_witness :
  calc_loss Demo.ext Demo.plain'
    ([("task_a", Demo.batch_a)] ++ ("task_c", Demo.batch_a) ::
     [("task_b", Demo.batch_b)]) 0 =
  (concat (map (λ item, log (calc_loss_task Demo.ext Demo.plain' item.1 item.2))
             [("task_a", Demo.batch_a)]) ++
   log (calc_loss_task Demo.ext Demo.plain' "task_c" Demo.batch_a),
   Raise (KeyError "task_c")).
Proof.
  apply (calc_loss_fail_fast Demo.ext Demo.plain' [("task_a", Demo.batch_a)]
           "task_c" Demo.batch_a [("task_b", Demo.batch_b)] 0).
  - constructor; [|constructor]. eexists. vm_compute. reflexivity.
  - vm_compute. reflexivity.
Defined.

(** ** The per-task mapping *)

Lemma dict_get_elem_of {V} (d : odict V) k v :
  NoDup (keys d) → (k, v) ∈ d → dict_get d k = Some v.
Proof.
  induction d as [|[k' v'] d IH]; simpl; intros Hnd Hin.
  - by apply elem_of_nil in Hin.
  - apply NoDup_cons in Hnd as [Hk Hnd].
    apply elem_of_cons in Hin as [[= <- <-]|Hin].
    + by rewrite String.eqb_refl.
    + destruct (String.eqb_spec k' k) as [->|_]; [|by apply IH].
      exfalso. apply Hk. apply list_elem_of_fmap. by exists (k, v).
Qed.

(** X7. When [calc_loss] succeeds, the per-task mapping it returns has
    exactly the keys of the batch, in the order of the batch, and looking a
    task up in it gives the mean of the loss tensor of that task's
    iteration. *)
Theorem calc_loss_mapping ext self train_batch batch_idx loss loss_per_task :
  NoDup (keys train_batch) →
  val (calc_loss ext self train_batch batch_idx) = Ok (loss, loss_per_task) →
  keys loss_per_task = keys train_batch ∧
  ∀ name batch, (name, batch) ∈ train_batch →
    ∃ t, val (calc_loss_task ext self name batch) = Ok t ∧
         dict_get loss_per_task name = Some (tmean t).
Proof.
  intros Hnd (Hok & -> & _)%calc_loss_ok; [|done].
  assert (keys (entry_of ext self <$> train_batch) = keys train_batch) as Hkeys.
  { unfold keys, entry_of. by rewrite <- list_fmap_compose. }
  split; [done|]. intros name batch Hin.
  rewrite Forall_forall in Hok. destruct (Hok _ Hin) as [t Ht]. simpl in Ht.
  exists t. split; [done|].
  apply dict_get_elem_of; [by rewrite Hkeys|].
  apply list_elem_of_fmap. exists (name, batch). split; [|done].
  unfold entry_of, curr_loss_of. simpl. by rewrite Ht.
Qed.

Lemma calc_loss_mapping_witness :
  keys [("task_a", Fin (1 # 2)); ("task_b", Fin 4)] = keys Demo.train_batch ∧
  ∀ name batch, (name, batch) ∈ Demo.train_batch →
    ∃ t, val (calc_loss_task Demo.ext Demo.plain name batch) = Ok t ∧
         dict_get [("task_a", Fin (1 # 2)); ("task_b", Fin 4)] name =
           Some (tmean t).
Proof.
  apply (calc_loss_mapping Demo.ext Demo.plain Demo.train_batch 0 (Fin (5 # 3))).
  - by_evaluation.
  - vm_compute. reflexivity.
Defined.

(** ** Loss tensors of the wrong rank *)

(** X8. A task whose loss function returns a reduced scalar (a rank-0
    tensor) makes the step fail although every iteration succeeds:
    [torch.cat] refuses the scalar with a [RuntimeError]. *)
Theorem calc_loss_scalar_loss ext self train_batch batch_idx name batch x :
  Forall (iteration_ok ext self) train_batch →
  (name, batch) ∈ train_batch →
  val (calc_loss_task ext self name batch) = Ok (T0 x) →
  val (calc_loss ext self train_batch batch_idx) =
  Raise (RuntimeError "zero-dimensional tensor cannot be concatenated").
Proof.
  intros Hok Hin Hx. rewrite calc_loss_val, calc_loss_loop_val by done.
  cbn [rbind fst app].
  assert (T0 x ∈ curr_loss_of ext self <$> train_batch) as Hmem.
  { apply list_elem_of_fmap. exists (name, batch). split; [|done].
    unfold curr_loss_of. simpl. by rewrite Hx. }
  assert (existsb is_T0 (curr_loss_of ext self <$> train_batch) = true) as Hex.
  { apply existsb_exists. exists (T0 x). split; [by apply list_elem_of_In|done]. }
  unfold tcat. rewrite Hex.
  by destruct (curr_loss_of ext self <$> train_batch);
    [apply elem_of_nil in Hmem|].
Qed.

Lemma calc_loss_scalar_loss_witness :
  val (calc_loss Demo.ext Demo2.model
         [("task_a", Demo.batch_a); ("task_s", Demo.batch_b)] 0) =
  Raise (RuntimeError "zero-dimensional tensor cannot be concatenated").
Proof.
  apply (calc_loss_scalar_loss Demo.ext Demo2.model
           [("task_a", Demo.batch_a); ("task_s", Demo.batch_b)] 0
           "task_s" Demo.batch_b (tmean (T1 [Fin (1 + - 1 + 1)]))%Q).
  - repeat constructor; eexists; vm_compute; reflexivity.
  - rewrite !elem_of_cons. auto.
  - vm_compute. reflexivity.
Defined.

(** X9. A classification task with [multi_label] set whose loss function
    already returns one value per example (or a scalar) ends its iteration
    with [IndexError]: the mean over dimension 1 has no dimension to reduce. *)
Theorem multi_label_needs_label_dimension
    ext self name batch task x y encoding head logits curr_loss :
  dict_get (task_dict self) name = Some task →
  TaskFamily.type task = "classification" →
  TaskFamily.multi_label task = true →
  getitem batch 0 = Ok x →
  getitem batch 1 = Ok y →
  val (forward ext self x (position_of task)) = Ok encoding →
  heads self !! name = Some head →
  head_call ext head encoding = Ok logits →
  TaskFamily.loss task [PyTensor logits; y] = Ok curr_loss →
  (∀ c rows, curr_loss ≠ T2 c rows) →
  val (calc_loss_task ext self name batch) =
  Raise (IndexError "Dimension out of range").
Proof.
  intros Ht Hty Hml Hx Hy He Hh Hl Hloss Hrank.
  rewrite (calc_loss_task_single ext self name batch task x y encoding) by done.
  unfold head_and_loss, heads_item. simpl. rewrite Hh. simpl.
  rewrite Hl. simpl. rewrite Hloss. simpl. rewrite Hml.
  destruct curr_loss as [v|xs|c rows]; [done|done|]. by destruct (Hrank c rows).
Qed.

Lemma multi_label_needs_label_dimension_witness :
  val (calc_loss_task Demo.ext Demo2.model "task_v" Demo.batch_a) =
  Raise (IndexError "Dimension out of range").
Proof.
  apply (multi_label_needs_label_dimension Demo.ext Demo2.model "task_v"
           Demo.batch_a Demo2.task_v _ _ _ Demo.head_a _
           (T1 [Fin (1 + - 0); Fin (1 + - 1)])%Q
           eq_refl eq_refl eq_refl eq_refl eq_refl eq_refl eq_refl eq_refl eq_refl).
  intros c rows. discriminate.
Defined.

(** ** The head table and the registry keys *)

(** X11. In a constructed module whose tasks have distinct names,
    [self.heads] holds, under the name of a task that owns a head, that head
    with a freshly sampled weight and a bias set to zero (a missing bias
    stays missing), and holds nothing under the name of a task that owns
    none. *)
Theorem init_heads_table ext batch_size flag registry l self t :
  init ext batch_size flag registry = (l, Ok self) →
  NoDup (TaskFamily.name <$> values (task_dict self)) →
  t ∈ values (task_dict self) →
  heads self !! TaskFamily.name t =
  (λ h, {| linear_weight := normal_like ext (linear_weight h);
           linear_bias := map (λ _, Fin 0) <$> linear_bias h |})
  <$> TaskFamily.head t.
Proof.
  intros (Htd & Hh & _)%init_heads Hnd Ht.
  rewrite Hh. unfold init_weights. rewrite lookup_fmap.
  rewrite Htd in Hnd, Ht. by rewrite heads_of_lookup.
Qed.

Lemma init_heads_table_witness :
  heads Demo.plain' !! "task_a" =
    Some {| linear_weight := [[Fin 1; Fin 0]; [Fin 0; Fin 1]]%Q;
            linear_bias := Some [Fin 0; Fin 0]%Q |} ∧
  heads Demo.plain' !! "task_c" = None.
Proof.
  split.
  - apply (init_heads_table Demo.ext 16 false (Some Demo.registry') []
             Demo.plain' Demo.task_a).
    + vm_compute. reflexivity.
    + by_evaluation.
    + unfold values. simpl. rewrite !elem_of_cons. auto.
  - apply (init_heads_table Demo.ext 16 false (Some Demo.registry') []
             Demo.plain' Demo.task_c).
    + vm_compute. reflexivity.
    + by_evaluation.
    + unfold values. simpl. rewrite !elem_of_cons. auto 10.
Defined.

Lemma init_heads_no_name ext batch_size flag registry l self key :
  init ext batch_size flag registry = (l, Ok self) →
  (∀ t, t ∈ values (task_dict self) → TaskFamily.name t ≠ key) →
  heads self !! key = None.
Proof.
  intros (Htd & Hh & _)%init_heads Hne.
  rewrite Hh. unfold init_weights. rewrite lookup_fmap.
  unfold heads_of. rewrite heads_of_foldl_other; [done|].
  intros t Ht. apply Hne. by rewrite Htd.
Qed.

(** X12. The head table is keyed by the tasks' names, the batch by the
    registry's keys: a classification task registered under a key that is no
    task's name ends its iteration with [KeyError], whether or not it owns a
    head. *)
Theorem key_name_mismatch_raises
    ext batch_size flag registry l self key task batch x y encoding :
  init ext batch_size flag registry = (l, Ok self) →
  dict_get (task_dict self) key = Some task →
  TaskFamily.type task = "classification" →
  (∀ t, t ∈ values (task_dict self) → TaskFamily.name t ≠ key) →
  getitem batch 0 = Ok x →
  getitem batch 1 = Ok y →
  val (forward ext self x (position_of task)) = Ok encoding →
  val (calc_loss_task ext self key batch) = Raise (KeyError key).
Proof.
  intros Hinit Ht Hty Hne Hx Hy He.
  rewrite (calc_loss_task_single ext self key batch task x y encoding) by done.
  unfold head_and_loss, heads_item. simpl.
  by rewrite (init_heads_no_name _ _ _ _ _ _ _ Hinit Hne).
Qed.

Lemma key_name_mismatch_raises_witness :
  val (calc_loss_task Demo.ext Demo2.renamed_model "fos" Demo.batch_a) =
  Raise (KeyError "fos").
Proof.
  apply (key_name_mismatch_raises Demo.ext 16 false (Some Demo2.renamed) []
           Demo2.renamed_model "fos" Demo.task_a Demo.batch_a
           (Demo.ids [[1; 3; 2]; [1; 4; 2]]%Z 3) (PyTensor (T1 [Fin 0; Fin 1]%Q))
           (T2 2 [[Fin 1; Fin (1 # 2)]; [Fin 1; Fin (1 # 2)]])%Q).
  - vm_compute. reflexivity.
  - reflexivity.
  - reflexivity.
  - intros t Ht. apply list_elem_of_singleton in Ht as ->. discriminate.
  - reflexivity.
  - reflexivity.
  - reflexivity.
Defined.

(** ** The embedding matrix after a resize *)

Lemma assign_last_rows_length w k c w' :
  assign_last_rows w k c = Ok w' → length w' = length w.
Proof.
  unfold assign_last_rows. destruct (w !! c) as [r|]; [|done].
  intros [= <-]. rewrite length_app, length_take, length_replicate. lia.
Qed.

(** X13. Whenever the construction resized the embedding matrix, the module
    it returns has exactly one embedding row per tokenizer id, and the one
    resize was to that size; this is the pair the checkpoint hook exports. *)
Theorem init_resized_rows ext batch_size flag registry l self :
  init ext batch_size flag registry = (l, Ok self) →
  resizes l ≠ [] →
  resizes l = [tokenizer_len (tokenizer self)] ∧
  length (word_embeddings (encoder self)) = tokenizer_len (tokenizer self).
Proof.
  intros (_ & enc' & tok' & Hext & ->)%init_Ok. revert Hext.
  cbn [tokenizer encoder].
  destruct flag; [|by intros [= <- _]].
  destruct (decide (spl_ctrl_tokens (effective_registry ext registry) = ∅))
    as [Hempty|Hne].
  { rewrite extend_vocabulary_empty by done. by intros [= <- _]. }
  rewrite (extend_vocabulary_on ext _ _ _ Hne). cbv zeta.
  destruct (0 <? _)%nat; [|by intros [= <- _]].
  destruct (assign_last_rows _ _ _) as [w|e] eqn:Hw; [|done].
  intros [= <- <- <-] _. simpl. split; [done|].
  apply assign_last_rows_length in Hw. rewrite Hw. apply resize_length.
Qed.

Lemma init_resized_rows_witness :
  resizes [EvPrint "Using Control Tokens"; EvAddSpecialTokens ["[B]"]; EvResize 6]
    = [tokenizer_len (tokenizer Demo.extended)] ∧
  length (word_embeddings (encoder Demo.extended)) =
    tokenizer_len (tokenizer Demo.extended).
Proof.
  apply (init_resized_rows Demo.ext 16 true None).
  - vm_compute. reflexivity.
  - discriminate.
Defined.

(** ** Datasets and iterations *)

Lemma calc_loss_task_encoder_runs ext self name batch task t :
  dict_get (task_dict self) name = Some task →
  val (calc_loss_task ext self name batch) = Ok t →
  length (encoder_calls (log (calc_loss_task ext self name batch))) =
  if bool_decide (TaskFamily.type task = "classification") then 1%nat else 3%nat.
Proof.
  intros Ht. case_bool_decide as Hty.
  - destruct (getitem batch 0) as [x|e] eqn:Hx; last first.
    { unfold calc_loss_task, dict_item, mbind, M_bind, lift, emit.
      rewrite Ht. cbv beta iota zeta.
      rewrite bool_decide_eq_false_2 by (by intros ?). by rewrite Hx. }
    destruct (getitem batch 1) as [y|e] eqn:Hy; last first.
    { unfold calc_loss_task, dict_item, mbind, M_bind, lift, emit.
      rewrite Ht. cbv beta iota zeta.
      rewrite bool_decide_eq_false_2 by (by intros ?). by rewrite Hx, Hy. }
    destruct (val (forward ext self x (position_of task))) as [enc|e] eqn:He.
    + by rewrite (calc_loss_task_single ext self name batch task x y enc).
    + unfold calc_loss_task, dict_item, mbind, M_bind, lift, emit.
      rewrite Ht. cbv beta iota zeta. rewrite position_of_idx.
      rewrite bool_decide_eq_false_2 by (by intros ?). rewrite Hx, Hy.
      rewrite forward_unfold in *. simpl in He. by rewrite He.
  - destruct (getitem2 batch 0 0) as [q|e] eqn:Hq; last first.
    { unfold calc_loss_task, dict_item, mbind, M_bind, lift, emit.
      rewrite Ht. cbv beta iota zeta.
      rewrite bool_decide_eq_true_2 by done. by rewrite Hq. }
    destruct (getitem2 batch 0 1) as [p|e] eqn:Hp; last first.
    { unfold calc_loss_task, dict_item, mbind, M_bind, lift, emit.
      rewrite Ht. cbv beta iota zeta.
      rewrite bool_decide_eq_true_2 by done. by rewrite Hq, Hp. }
    destruct (getitem2 batch 0 2) as [n|e] eqn:Hn; last first.
    { unfold calc_loss_task, dict_item, mbind, M_bind, lift, emit.
      rewrite Ht. cbv beta iota zeta.
      rewrite bool_decide_eq_true_2 by done. by rewrite Hq, Hp, Hn. }
    destruct (val (forward ext self q (position_of task))) as [qe|e] eqn:Hqe;
      last first.
    { unfold calc_loss_task, dict_item, mbind, M_bind, lift, emit.
      rewrite Ht. cbv beta iota zeta. rewrite position_of_idx.
      rewrite bool_decide_eq_true_2 by done. rewrite Hq, Hp, Hn.
      rewrite !forward_unfold in *. simpl in Hqe. by rewrite Hqe. }
    destruct (val (forward ext self p (position_of task))) as [pe|e] eqn:Hpe;
      last first.
    { unfold calc_loss_task, dict_item, mbind, M_bind, lift, emit.
      rewrite Ht. cbv beta iota zeta. rewrite position_of_idx.
      rewrite bool_decide_eq_true_2 by done. rewrite Hq, Hp, Hn.
      rewrite !forward_unfold in *. simpl in Hqe, Hpe. by rewrite Hqe, Hpe. }
    destruct (val (forward ext self n (position_of task))) as [ne|e] eqn:Hne;
      last first.
    { unfold calc_loss_task, dict_item, mbind, M_bind, lift, emit.
      rewrite Ht. cbv beta iota zeta. rewrite position_of_idx.
      rewrite bool_decide_eq_true_2 by done. rewrite Hq, Hp, Hn.
      rewrite !forward_unfold in *. simpl in Hqe, Hpe, Hne.
      by rewrite Hqe, Hpe, Hne. }
    by rewrite (calc_loss_task_three_way ext self name batch task q p n qe pe ne).
Qed.

Lemma dict_get_lookup {V} (d : odict V) i k v :
  NoDup (keys d) → d !! i = Some (k, v) → dict_get d k = Some v.
Proof.
  intros Hnd Hi. apply dict_get_elem_of; [done|].
  by eapply list_elem_of_lookup_2.
Qed.

(** X14. The dataset [load_data] builds for a registered task agrees with
    the way [calc_loss] treats the task: it carries the registry key as its
    name; a successful iteration runs the encoder once when the dataset
    yields [(inputs, labels)] pairs and three times when it yields triples;
    and the dataset is given a control token to insert exactly when the
    module uses control tokens and the iteration reads position 1. *)
Theorem dataset_matches_iteration ext self split i name task batch t :
  NoDup (keys (task_dict self)) →
  task_dict self !! i = Some (name, task) →
  val (calc_loss_task ext self name batch) = Ok t →
  ∃ ds,
    load_data self split !! i = Some ds ∧
    ds_task_name ds = name ∧
    length (encoder_calls (log (calc_loss_task ext self name batch))) =
      (if yields_pairs (ds_kind ds) then 1 else 3)%nat ∧
    (truthy (ds_ctrl_token ds) = true ↔
     use_ctrl_tokens self = true ∧ position_of task = 1%Z).
Proof.
  intros Hnd Hi Hval.
  pose proof (dict_get_lookup _ _ _ _ Hnd Hi) as Ht.
  eexists. split; [|split; [|split]].
  - unfold load_data.
    match goal with |- map ?f ?d !! _ = _ => change (map f d) with (f <$> d) end.
    rewrite list_lookup_fmap. unfold odict in *. rewrite Hi. reflexivity.
  - done.
  - rewrite (calc_loss_task_encoder_runs ext self name batch task t Ht Hval).
    simpl. repeat case_bool_decide; by destruct (TaskFamily.multi_label task).
  - simpl. unfold position_of.
    destruct (use_ctrl_tokens self), (truthy (TaskFamily.ctrl_token task)) eqn:E;
      simpl; rewrite ?E; (split; [intros ?|intros [? ?]]); try done; by split.
Qed.

Lemma dataset_matches_iteration_witness :
  ∃ ds,
    load_data Demo.extended "train" !! 1%nat = Some ds ∧
    ds_task_name ds = "task_b" ∧
    length (encoder_calls
              (log (calc_loss_task Demo.ext Demo.extended "task_b" Demo.batch_b))) =
      (if yields_pairs (ds_kind ds) then 1 else 3)%nat ∧
    (truthy (ds_ctrl_token ds) = true ↔
     use_ctrl_tokens Demo.extended = true ∧ position_of Demo.task_b = 1%Z).
Proof.
  apply (dataset_matches_iteration Demo.ext Demo.extended "train" 1 "task_b"
           Demo.task_b Demo.batch_b (T1 [Fin (3 + - 3 + 4)])%Q).
  - by_evaluation.
  - reflexivity.
  - vm_compute. reflexivity.
Defined.

(** ** Loading the data *)

Section LoadData.
Variable task_data : TaskFamily.t → TaskData.
Variable self : PhantasmLight.
Variable split : string.

Lemma load_dataset_file t_name task file :
  dict_get (data_files (task_data task)) split = Some file →
  ∃ da, load_dataset task_data self split t_name task = Ok da ∧
        json_file da = file ∧
        da_dataset da =
          {| ds_kind :=
               if bool_decide (TaskFamily.type task = "classification") then
                 if TaskFamily.multi_label task
                 then MultiLabelClassificationDataset else ClassificationDataset
               else if bool_decide (TaskFamily.type task = "ir") then IRDataset
               else TripletDataset;
             ds_task_name := t_name;
             ds_ctrl_token := if use_ctrl_tokens self
                              then TaskFamily.ctrl_token task else None;
             ds_sample_size := if bool_decide (split = "train")
                               then 400000%Z else 80000%Z |}.
Proof.
  intros Hf. unfold load_dataset, dict_item. rewrite Hf. cbn [rbind].
  case_bool_decide; eexists; (split; [reflexivity|]); by split.
Qed.

Lemma load_dataset_no_file t_name task :
  dict_get (data_files (task_data task)) split = None →
  load_dataset task_data self split t_name task = Raise (KeyError split).
Proof. intros Hf. unfold load_dataset, dict_item. by rewrite Hf. Qed.

Lemma load_dataset_cases t_name task :
  (∃ da, load_dataset task_data self split t_name task = Ok da) ∨
  load_dataset task_data self split t_name task = Raise (KeyError split).
Proof.
  destruct (dict_get (data_files (task_data task)) split) as [file|] eqn:Hf.
  - left. destruct (load_dataset_file t_name task file Hf) as (da & Hda & _). eauto.
  - right. by apply load_dataset_no_file.
Qed.

Lemma sequence_results_raise {A} (rs : list (result A)) e :
  Forall (λ r, (∃ a, r = Ok a) ∨ r = Raise e) rs →
  Raise e ∈ rs →
  sequence_results rs = Raise e.
Proof.
  induction 1 as [|r rs Hr _ IH]; intros Hin; [by apply elem_of_nil in Hin|].
  cbn [sequence_results]. destruct Hr as [[a ->]| ->]; [|done].
  apply elem_of_cons in Hin as [?|Hin]; [done|].
  cbn [rbind]. by rewrite IH.
Qed.

Lemma sequence_results_ok {A B} (f : A → result B) (g : A → B) (l : list A) :
  Forall (λ a, f a = Ok (g a)) l →
  sequence_results (map f l) = Ok (g <$> l).
Proof.
  induction 1 as [|a l Ha _ IH]; [done|].
  cbn [map sequence_results]. rewrite Ha, IH. done.
Qed.

End LoadData.

(** X15. If some registered task has no data file for the split, [load_data]
    raises [KeyError] for the split and stores nothing, whatever the other
    tasks have. *)
Theorem load_data_missing_file task_data self trainer split ld name task :
  (name, task) ∈ task_dict self →
  dict_get (data_files (task_data task)) split = None →
  load_data_into task_data self trainer split ld = Raise (KeyError split).
Proof.
  intros Hin Hf. unfold load_data_into.
  rewrite (sequence_results_raise _ (KeyError split)); [done| |].
  - apply Forall_forall. intros r Hr.
    apply list_elem_of_In, in_map_iff in Hr as [[n t] [<- _]].
    apply load_dataset_cases.
  - apply list_elem_of_In, in_map_iff. exists (name, task).
    split; [by apply load_dataset_no_file|by apply list_elem_of_In].
Qed.

Lemma load_data_missing_file_witness :
  load_data_into Demo2.task_data Demo.plain Demo2.trainer "test" no_loaders =
  Raise (KeyError "test").
Proof.
  apply (load_data_missing_file Demo2.task_data Demo.plain Demo2.trainer "test"
           no_loaders "task_b" Demo.task_b).
  - unfold task_dict, Demo.plain, Demo.registry. rewrite !elem_of_cons. auto.
  - reflexivity.
Defined.

Section LoadDataInto.
Variable task_data : TaskFamily.t → TaskData.
Variable self : PhantasmLight.
Variable split : string.

(** The datasets built when every task has a file for the split. *)
Lemma load_datasets_ok :
  Forall (λ kv, is_Some (dict_get (data_files (task_data kv.2)) split))
         (task_dict self) →
  ∃ dataset_list,
    sequence_results
      (map (λ '(t_name, task), load_dataset task_data self split t_name task)
         (task_dict self)) = Ok dataset_list ∧
    da_dataset <$> dataset_list = load_data self split ∧
    Forall2 (λ kv da,
               dict_get (data_files (task_data kv.2)) split = Some (json_file da))
            (task_dict self) dataset_list.
Proof.
  unfold load_data. induction 1 as [|[n t] l [file Hf] _ IH].
  - exists []. by repeat split; try constructor.
  - destruct IH as (das & Hs & Hd & Hj).
    destruct (load_dataset_file task_data self split n t file Hf)
      as (da & Hda & Hfile & Hds).
    exists (da :: das). repeat split.
    + cbn [map sequence_results]. by rewrite Hda, Hs.
    + cbn [fmap list_fmap map]. f_equal; [exact Hds|exact Hd].
    + constructor; [|done]. cbn [snd] in Hf |- *. by rewrite Hf, Hfile.
Qed.

End LoadDataInto.

(** X16. When every registered task has a data file for the split,
    [load_data] succeeds: it builds one dataset per task, in registry order,
    each over the task's file for the split, chains them with the module's
    batch size and the trainer's rank and world size, and stores the chain in
    [multi_train] for "train", in [multi_val] for "dev" and nowhere for any
    other split. *)
Theorem load_data_stores task_data self trainer split ld :
  Forall (λ kv, is_Some (dict_get (data_files (task_data kv.2)) split))
         (task_dict self) →
  ∃ chain,
    da_dataset <$> datasets chain = load_data self split ∧
    Forall2 (λ kv da,
               dict_get (data_files (task_data kv.2)) split = Some (json_file da))
            (task_dict self) (datasets chain) ∧
    chain_batch_size chain = batch_size self ∧
    device_rank chain = global_rank trainer ∧
    num_devices chain = world_size trainer ∧
    load_data_into task_data self trainer split ld =
    Ok (if bool_decide (split = "train") then
          {| multi_train := Some chain; multi_test := multi_test ld;
             multi_val := multi_val ld |}
        else if bool_decide (split = "dev") then
          {| multi_train := multi_train ld; multi_test := multi_test ld;
             multi_val := Some chain |}
        else ld).
Proof.
  intros Hall.
  destruct (load_datasets_ok task_data self split Hall) as (das & Hs & Hd & Hj).
  eexists {| datasets := das |}. cbn [datasets chain_batch_size device_rank
                                       num_devices].
  split; [exact Hd|]. split; [exact Hj|]. do 3 (split; [reflexivity|]).
  unfold load_data_into. rewrite Hs. cbn [rbind].
  by repeat case_bool_decide.
Qed.

Lemma load_data_stores_witness :
  ∃ chain,
    da_dataset <$> datasets chain = load_data Demo.plain "dev" ∧
    Forall2 (λ kv da,
               dict_get (data_files (Demo2.task_data kv.2)) "dev" =
               Some (json_file da))
            (task_dict Demo.plain) (datasets chain) ∧
    chain_batch_size chain = batch_size Demo.plain ∧
    device_rank chain = global_rank Demo2.trainer ∧
    num_devices chain = world_size Demo2.trainer ∧
    load_data_into Demo2.task_data Demo.plain Demo2.trainer "dev" no_loaders =
    Ok (if bool_decide ("dev" = "train") then
          {| multi_train := Some chain; multi_test := multi_test no_loaders;
             multi_val := multi_val no_loaders |}
        else if bool_decide ("dev" = "dev") then
          {| multi_train := multi_train no_loaders;
             multi_test := multi_test no_loaders;
             multi_val := Some chain |}
        else no_loaders).
Proof.
  apply (load_data_stores Demo2.task_data Demo.plain Demo2.trainer "dev"
           no_loaders).
  unfold task_dict, Demo.plain, Demo.registry.
  repeat constructor; by eexists.
Defined.

(** X17. [setup] followed by [val_dataloader], for a registry whose tasks have
    a "train" and a "dev" file: both succeed, the loader returned by
    [train_dataloader] afterwards still holds the training chain (the
    validation load leaves [multi_train] alone), the validation loader holds
    the "dev" chain, both list the registry's tasks in order, and
    [multi_test] is never assigned. *)
Theorem dataloaders_after_setup task_data self trainer stage ld :
  Forall (λ kv, is_Some (dict_get (data_files (task_data kv.2)) "train") ∧
                is_Some (dict_get (data_files (task_data kv.2)) "dev"))
         (task_dict self) →
  ∃ ld1 ld2 val_loader tr va,
    setup task_data self trainer stage ld = Ok ld1 ∧
    val_dataloader task_data self trainer ld1 = Ok (ld2, val_loader) ∧
    dl_dataset (train_dataloader self ld2) = Some tr ∧
    dl_dataset val_loader = Some va ∧
    da_dataset <$> datasets tr = load_data self "train" ∧
    da_dataset <$> datasets va = load_data self "dev" ∧
    multi_test ld2 = multi_test ld.
Proof.
  intros Hall.
  assert (Htrain : Forall (λ kv, is_Some (dict_get (data_files (task_data kv.2))
                                            "train")) (task_dict self))
    by (eapply Forall_impl; [exact Hall|]; by intros ? [? ?]).
  assert (Hdev : Forall (λ kv, is_Some (dict_get (data_files (task_data kv.2))
                                          "dev")) (task_dict self))
    by (eapply Forall_impl; [exact Hall|]; by intros ? [? ?]).
  destruct (load_datasets_ok task_data self "train" Htrain) as (dt & Hst & Hdt & _).
  destruct (load_datasets_ok task_data self "dev" Hdev) as (dv & Hsv & Hdv & _).
  do 3 eexists.
  exists {| datasets := dt; chain_batch_size := batch_size self;
            device_rank := global_rank trainer;
            num_devices := world_size trainer;
            batching_strategy := "MIXED_PROPORTIONAL" |},
         {| datasets := dv; chain_batch_size := batch_size self;
            device_rank := global_rank trainer;
            num_devices := world_size trainer;
            batching_strategy := "MIXED_PROPORTIONAL" |}.
  split.
  { unfold setup, load_data_into. rewrite Hst. cbn [rbind].
    rewrite bool_decide_eq_true_2 by done. reflexivity. }
  split.
  { unfold val_dataloader, load_data_into. rewrite Hsv. cbn [rbind].
    rewrite bool_decide_eq_false_2 by done.
    rewrite bool_decide_eq_true_2 by done. cbn [rbind]. reflexivity. }
  cbn. by repeat split.
Qed.

Lemma dataloaders_after_setup_witness :
  ∃ ld1 ld2 val_loader tr va,
    setup Demo2.task_data Demo.plain Demo2.trainer (Some "fit") no_loaders =
      Ok ld1 ∧
    val_dataloader Demo2.task_data Demo.plain Demo2.trainer ld1 =
      Ok (ld2, val_loader) ∧
    dl_dataset (train_dataloader Demo.plain ld2) = Some tr ∧
    dl_dataset val_loader = Some va ∧
    da_dataset <$> datasets tr = load_data Demo.plain "train" ∧
    da_dataset <$> datasets va = load_data Demo.plain "dev" ∧
    multi_test ld2 = multi_test no_loaders.
Proof.
  apply (dataloaders_after_setup Demo2.task_data Demo.plain Demo2.trainer
           (Some "fit") no_loaders).
  unfold task_dict, Demo.plain, Demo.registry.
  repeat constructor; by eexists.
Defined.

(** ** The steps *)

Lemma append_assoc (a b c : string) : (a +:+ b) +:+ c = a +:+ (b +:+ c).
Proof. induction a as [|x a IH]; [done|]. rewrite !append_cons. by f_equal. Qed.

Lemma validation_step_unfold ext self train_batch batch_idx loss loss_per_task :
  val (calc_loss ext self train_batch batch_idx) = Ok (loss, loss_per_task) →
  ∃ task_calls,
    Log.name <$> task_calls = (λ kv, "val_loss_" +:+ kv.1) <$> loss_per_task ∧
    validation_step ext self train_batch batch_idx =
    (log (calc_loss ext self train_batch batch_idx),
     task_calls ++
     [{| Log.name := "val_loss"; Log.value := loss;
         Log.prog_bar := Some true; Log.on_step := Some true;
         Log.on_epoch := Some false; Log.batch_size := None;
         Log.rank_zero_only := None; Log.sync_dist := None;
         Log.logger := None |};
      {| Log.name := "avg_val_loss"; Log.value := loss;
         Log.prog_bar := Some true; Log.on_step := None;
         Log.on_epoch := Some true; Log.batch_size := Some (batch_size self);
         Log.rank_zero_only := None; Log.sync_dist := Some true;
         Log.logger := None |}],
     Ok [("val_loss", loss)]).
Proof.
  intros Hv. unfold validation_step.
  rewrite (M_eta (calc_loss ext self train_batch batch_idx)), Hv.
  eexists. split; [|reflexivity].
  rewrite <- list_fmap_compose. apply list_fmap_ext. by intros ? [? ?].
Qed.

Lemma filter_none {A} (P : A → Prop) `{∀ x, Decision (P x)} (l : list A) :
  Forall (λ x, ¬ P x) l → filter P l = [].
Proof.
  induction 1 as [|x l Hx _ IH]; [done|]. by rewrite filter_cons_False.
Qed.

(** X18. A validation step whose [calc_loss] succeeds logs one metric
    [val_loss_<task>] per key of the batch, in batch order, then [val_loss]
    and [avg_val_loss]; the metric the checkpoint callback monitors is logged
    exactly once, with the step's loss, per epoch and synchronised across
    devices; the step returns the loss under "val_loss". *)
Theorem validation_step_metrics ext self train_batch batch_idx loss loss_per_task :
  NoDup (keys train_batch) →
  val (calc_loss ext self train_batch batch_idx) = Ok (loss, loss_per_task) →
  Log.name <$> logged (validation_step ext self train_batch batch_idx) =
    ((λ task, "val_loss_" +:+ task) <$> keys train_batch) ++
    ["val_loss"; "avg_val_loss"] ∧
  (∃ c, filter (λ c, Log.name c = monitor checkpoint_callback)
          (logged (validation_step ext self train_batch batch_idx)) = [c] ∧
        Log.value c = loss ∧ Log.on_epoch c = Some true ∧
        Log.sync_dist c = Some true) ∧
  (validation_step ext self train_batch batch_idx).2 = Ok [("val_loss", loss)].
Proof.
  intros Hnd Hv.
  destruct (validation_step_unfold ext self train_batch batch_idx loss
              loss_per_task Hv) as (calls & Hnames & ->).
  assert (Hkeys : keys loss_per_task = keys train_batch).
  { apply calc_loss_ok in Hv as (_ & -> & _); [|done].
    unfold keys, entry_of. by rewrite <- list_fmap_compose. }
  unfold logged. cbn [fst snd]. split; [|split; [|done]].
  - rewrite fmap_app, Hnames. f_equal.
    rewrite <- Hkeys. unfold keys. by rewrite <- list_fmap_compose.
  - assert (Hnone : filter (λ c, Log.name c = monitor checkpoint_callback)
                      calls = []).
    { apply filter_none, Forall_forall. intros c Hc.
      apply (list_elem_of_fmap_2 Log.name) in Hc. rewrite Hnames in Hc.
      apply list_elem_of_fmap_1 in Hc as (kv & -> & _).
      unfold monitor, checkpoint_callback. rewrite append_cons. discriminate. }
    rewrite filter_app, Hnone. eexists. split; [reflexivity|]. by repeat split.
Qed.

Lemma validation_step_metrics_witness :
  Log.name <$> logged (validation_step Demo.ext Demo.plain Demo.train_batch 0) =
    ((λ task, "val_loss_" +:+ task) <$> keys Demo.train_batch) ++
    ["val_loss"; "avg_val_loss"] ∧
  (∃ c, filter (λ c, Log.name c = monitor checkpoint_callback)
          (logged (validation_step Demo.ext Demo.plain Demo.train_batch 0)) =
        [c] ∧
        Log.value c = Fin (5 # 3) ∧ Log.on_epoch c = Some true ∧
        Log.sync_dist c = Some true) ∧
  (validation_step Demo.ext Demo.plain Demo.train_batch 0).2 =
    Ok [("val_loss", Fin (5 # 3))].
Proof.
  apply (validation_step_metrics Demo.ext Demo.plain Demo.train_batch 0
           (Fin (5 # 3)) [("task_a", Fin (1 # 2)); ("task_b", Fin 4)]).
  - by_evaluation.
  - vm_compute. reflexivity.
Defined.

(** X19. A training step whose [calc_loss] succeeds logs [train_loss] with
    the step's loss and then [lr] with the last of the scheduler's learning
    rates, and returns the loss under "loss"; if the scheduler reports no
    learning rate the step ends with [IndexError] after [train_loss] has been
    logged. *)
Theorem training_step_metrics ext self train_batch batch_idx loss loss_per_task
    get_last_lr :
  val (calc_loss ext self train_batch batch_idx) = Ok (loss, loss_per_task) →
  match get_last_lr with
  | [] =>
    Log.name <$> logged (training_step ext self train_batch batch_idx []) =
      ["train_loss"] ∧
    (training_step ext self train_batch batch_idx []).2 =
      Raise (IndexError "list index out of range")
  | _ :: _ =>
    ∃ rate rates, get_last_lr = rates ++ [rate] ∧
    (Log.name <$> logged (training_step ext self train_batch batch_idx
                            get_last_lr) = ["train_loss"; "lr"]) ∧
    (Log.value <$> logged (training_step ext self train_batch batch_idx
                             get_last_lr) = [loss; rate]) ∧
    (training_step ext self train_batch batch_idx get_last_lr).2 =
      Ok [("loss", loss)]
  end.
Proof.
  intros Hv. unfold training_step.
  rewrite (M_eta (calc_loss ext self train_batch batch_idx)), Hv.
  destruct get_last_lr as [|r rs]; [done|].
  destruct (last (r :: rs)) as [rate|] eqn:Hl.
  - apply last_Some in Hl as [rates Hl]. exists rate, rates.
    split; [exact Hl|]. done.
  - by apply last_None in Hl.
Qed.

Lemma training_step_metrics_witness :
  ∃ rate rates, [Fin (1 # 1000); Fin (1 # 500)] = rates ++ [rate] ∧
    (Log.name <$> logged (training_step Demo.ext Demo.plain Demo.train_batch 0
                            [Fin (1 # 1000); Fin (1 # 500)]) =
     ["train_loss"; "lr"]) ∧
    (Log.value <$> logged (training_step Demo.ext Demo.plain Demo.train_batch 0
                             [Fin (1 # 1000); Fin (1 # 500)]) =
     [Fin (5 # 3); rate]) ∧
    (training_step Demo.ext Demo.plain Demo.train_batch 0
       [Fin (1 # 1000); Fin (1 # 500)]).2 = Ok [("loss", Fin (5 # 3))].
Proof.
  apply (training_step_metrics Demo.ext Demo.plain Demo.train_batch 0
           (Fin (5 # 3)) [("task_a", Fin (1 # 2)); ("task_b", Fin 4)]
           [Fin (1 # 1000); Fin (1 # 500)]).
  vm_compute. reflexivity.
Defined.

(** ** The driver *)

(** X20. When the checkpoint callback's [dirpath] is the driver's f-string
    over the logger's own [save_dir], as in [__main__], the hook exports the
    encoder to [dirpath + "model/"] and the tokenizer and its vocabulary to
    [dirpath + "tokenizer/"]: the exports land inside the directory the
    callback writes its checkpoints to. *)
Theorem exports_inside_dirpath self logger callback :
  dirpath callback = filepath_of (save_dir logger) logger →
  on_save_checkpoint self logger =
  ([EvSaveModel (dirpath callback +:+ "model/") (encoder self);
    EvSaveTokenizer (dirpath callback +:+ "tokenizer/") (tokenizer self);
    EvSaveVocabulary (dirpath callback +:+ "tokenizer/") (tokenizer self)],
   Ok tt).
Proof.
  intros ->. unfold on_save_checkpoint, filepath_of.
  rewrite !append_assoc. reflexivity.
Qed.

Lemma exports_inside_dirpath_witness :
  on_save_checkpoint Demo.plain main_logger =
  ([EvSaveModel (dirpath checkpoint_callback +:+ "model/") (encoder Demo.plain);
    EvSaveTokenizer (dirpath checkpoint_callback +:+ "tokenizer/")
      (tokenizer Demo.plain);
    EvSaveVocabulary (dirpath checkpoint_callback +:+ "tokenizer/")
      (tokenizer Demo.plain)],
   Ok tt).
Proof.
  apply (exports_inside_dirpath Demo.plain main_logger checkpoint_callback).
  reflexivity.
Defined.

(** ** The optimizer, again *)

Lemma filter_snd_sublist {A B} (f : A * B → bool) (l : list (A * B)) :
  (List.filter f l).*2 `sublist_of` l.*2.
Proof.
  induction l as [|x l IH]; [done|].
  cbn [List.filter]. destruct (f x); cbn [fmap list_fmap].
  - by apply sublist_skip.
  - by apply sublist_cons.
Qed.

(** X21. Each parameter group of [configure_optimizers] lists its parameters
    in the order [named_parameters] yields them (the comprehensions only
    drop entries), the optimizer runs at the module's learning rate, and the
    schedule is built over that same optimizer and warms up from its rate. *)
Theorem configure_optimizers_order ext self :
  ∃ g0 g1,
    param_groups (optimizer (configure_optimizers ext self)) = [g0; g1] ∧
    params g0 `sublist_of` (named_parameters ext self).*2 ∧
    params g1 `sublist_of` (named_parameters ext self).*2 ∧
    adamw_lr (optimizer (configure_optimizers ext self)) = lr self ∧
    scheduler_optimizer (scheduler (configure_optimizers ext self)) =
      optimizer (configure_optimizers ext self) ∧
    warmup_init_lr (scheduler_config (scheduler (configure_optimizers ext self))) =
      adamw_lr (optimizer (configure_optimizers ext self)).
Proof.
  eexists _, _. split; [reflexivity|]. cbn [params].
  split; [apply filter_snd_sublist|]. split; [apply filter_snd_sublist|].
  done.
Qed.

(** ** Names the head table refuses *)

(** X22. A registered task that owns a head and whose name a [ModuleDict]
    does not accept (the name contains a dot, is empty, or is an attribute of
    the class) makes the construction raise [KeyError] at once: nothing is
    printed, registered or resized. *)
Theorem init_invalid_head_name ext batch_size flag registry t :
  t ∈ values (effective_registry ext registry) →
  is_Some (TaskFamily.head t) →
  ¬ valid_module_name ext (TaskFamily.name t) →
  ∃ msg, init ext batch_size flag registry = ([], Raise (KeyError msg)).
Proof.
  intros Ht Hs Hinv. rewrite init_unfold.
  destruct (ModuleDict _ _) as [hs|e] eqn:Hmd.
  - exfalso. apply Hinv. by eapply (ModuleDict_Ok_valid ext).
  - apply store_KeyError in Hmd as [msg ->]. eauto.
Qed.

Lemma init_invalid_head_name_witness :
  ∃ msg, init Demo.ext 16 true (Some Demo2.dotted) = ([], Raise (KeyError msg)).
Proof.
  apply (init_invalid_head_name Demo.ext 16 true (Some Demo2.dotted)
           Demo2.task_d).
  - unfold effective_registry, Demo2.dotted, values. cbn [map snd].
    rewrite !elem_of_cons. auto.
  - by eexists.
  - intros (_ & Hdot & _). vm_compute in Hdot. discriminate.
Defined.
